(** * Background workers of the OLAP engine and the metadata entities of
      [olap_common.h]

    The development follows the two source files:

    - [olap_common.h]: [TabletInfo] with its [operator<] and [to_string],
      [RowSetEntity] and its constructor, [VersionEntity] and
      [add_rowset_entity];
    - the background-worker translation unit of [OLAPEngine]:
      [_start_bg_worker], the six [_*_callback] thread bodies, their
      start-up validation of the configured intervals, and the damping
      ratio of the garbage sweeper.

    Fixed-width integers are integers of [Z] with the wrap-around of the
    C++ conversions written out.  [double] arithmetic is idealised as exact
    arithmetic over [R]; [std::atan] is [atan].  A thread body that loops
    forever is run for a given number of loop iterations and yields the
    events it performs, one list per iteration. *)

From Stdlib Require Import Ascii String DecimalString DecimalZ.
From Stdlib Require Import ZArith List Bool Lia.
From Stdlib Require Import Reals Lra.
Import ListNotations.

Local Open Scope Z_scope.

(** ** Machine integers *)

Module Int.

Definition two32 : Z := 2 ^ 32.

(** Values of [int32_t], the type of the interval entries of [config]. *)
Definition int32_range (z : Z) : Prop := - 2 ^ 31 <= z < 2 ^ 31.

Definition uint32_range (z : Z) : Prop := 0 <= z < two32.

(** Conversion of an integer to [uint32_t]: reduction modulo 2^32. *)
Definition to_uint32 (z : Z) : Z := z mod two32.

(** Product of two [uint32_t] operands. *)
Definition mul_uint32 (a b : Z) : Z := (a * b) mod two32.

End Int.

(** ** [olap_common.h] *)

Module OlapCommon.

(** *** [TabletInfo] *)

(** [TTabletId] is a 64-bit and [TSchemaHash] a 32-bit signed integer. *)
Record TabletInfo : Type := mkTabletInfo {
  tablet_id : Z;
  schema_hash : Z
}.

(** [bool operator<(const TabletInfo& right) const] *)
Definition TabletInfo_lt (l right : TabletInfo) : bool :=
  if negb (tablet_id l =? tablet_id right)
  then tablet_id l <? tablet_id right
  else schema_hash l <? schema_hash right.

(** Decimal text of a signed integer, as [operator<<] writes it: the
    digits without leading zeros, ["0"] for zero, a leading ["-"] for a
    negative value. *)
Definition decimal (z : Z) : string := NilEmpty.string_of_int (Z.to_int z).

(** [std::string to_string() const]:
    [ss << "." << tablet_id << "." << schema_hash] *)
Definition to_string (t : TabletInfo) : string :=
  ("." ++ decimal (tablet_id t) ++ "." ++ decimal (schema_hash t))%string.

(** Number of occurrences of a character in a string. *)
Fixpoint count_char (c : ascii) (s : string) : nat :=
  match s with
  | EmptyString => 0%nat
  | String a s' =>
      if Ascii.eqb a c then S (count_char c s') else count_char c s'
  end.

(** *** [RowSetEntity] *)

(** A [WrapperField*] is kept as the address it holds. *)
Definition WrapperFieldPtr : Type := Z.

(** [using KeyRange = std::pair<WrapperField*, WrapperField*>] *)
Definition KeyRange : Type := (WrapperFieldPtr * WrapperFieldPtr)%type.

Record RowSetEntity : Type := mkRowSetEntity {
  rowset_id : Z;
  num_segments : Z;
  num_rows : Z;
  data_size : Z;
  index_size : Z;
  empty : bool;
  key_ranges : list KeyRange
}.

(** The constructor.  [column_statistics] is a pointer to a vector:
    [None] is [nullptr].  The member [key_ranges] is default-constructed
    (empty) and assigned only under the null test. *)
Definition RowSetEntity_new
    (rowset_id num_segments num_rows data_size index_size : Z)
    (empty : bool) (column_statistics : option (list KeyRange))
  : RowSetEntity :=
  let key_ranges := [] in
  let key_ranges :=
    match column_statistics with
    | Some v => v
    | None => key_ranges
    end in
  mkRowSetEntity rowset_id num_segments num_rows data_size index_size
                 empty key_ranges.

(** *** [VersionEntity] *)

(** [typedef std::pair<int64_t, int64_t> Version] *)
Definition Version : Type := (Z * Z)%type.
Definition VersionHash : Type := Z.

Record VersionEntity : Type := mkVersionEntity {
  version : Version;
  version_hash : VersionHash;
  rowset_vec : list RowSetEntity
}.

(** [VersionEntity(Version v, VersionHash version_hash)] *)
Definition VersionEntity_new (v : Version) (h : VersionHash) : VersionEntity :=
  mkVersionEntity v h [].

(** [rowset_vec.push_back(rowset)] *)
Definition add_rowset_entity (ve : VersionEntity) (rowset : RowSetEntity)
  : VersionEntity :=
  mkVersionEntity (version ve) (version_hash ve) (rowset_vec ve ++ [rowset]).

(** A sequence of calls, first element first. *)
Definition add_rowset_entities (ve : VersionEntity) (rs : list RowSetEntity)
  : VersionEntity :=
  fold_left add_rowset_entity rs ve.

End OlapCommon.

(** ** The background workers of [OLAPEngine] *)

Module OlapServer.

Import Int.

(** The interval entries of [config] the callbacks read.  Their
    declarations are in the configuration header; each is a signed 32-bit
    integer (the callbacks log them with [%d]). *)
Record config : Type := mkConfig {
  file_descriptor_cache_clean_interval : Z;
  base_compaction_check_interval_seconds : Z;
  max_garbage_sweep_interval : Z;
  min_garbage_sweep_interval : Z;
  disk_stat_monitor_interval : Z;
  unused_index_monitor_interval : Z;
  cumulative_compaction_check_interval_seconds : Z
}.

Definition config_wf (cfg : config) : Prop :=
  int32_range (file_descriptor_cache_clean_interval cfg) /\
  int32_range (base_compaction_check_interval_seconds cfg) /\
  int32_range (max_garbage_sweep_interval cfg) /\
  int32_range (min_garbage_sweep_interval cfg) /\
  int32_range (disk_stat_monitor_interval cfg) /\
  int32_range (unused_index_monitor_interval cfg) /\
  int32_range (cumulative_compaction_check_interval_seconds cfg).

(** The collaborators a worker calls. *)
Inductive collaborator : Type :=
| start_clean_fd_cache
| apply_system_cgroup
| perform_base_compaction
| start_trash_sweep
| start_disk_stat_monitor
| start_delete_unused_index
| perform_cumulative_compaction.

Inductive OLAPStatus : Type :=
| OLAP_SUCCESS
| OLAP_ERR (code : Z).

(** What a worker does that is visible from outside. *)
Inductive event : Type :=
| LogWarning
| LogInfo
| Sleep (seconds : Z)
| Usleep (useconds : Z)
| Call (c : collaborator).

(** A worker run for some loop iterations: the events before the loop,
    then the events of each iteration of [while (true)]. *)
Record run : Type := mkRun {
  startup : list event;
  iterations : list (list event)
}.

(** [n] iterations of a [while (true)] whose body carries no state. *)
Definition while_true (n : nat) (body : list event) : list (list event) :=
  repeat body n.

(** The check shared by the five workers with one interval:
    [uint32_t interval = config::...; if (interval <= 0) { warn; interval = d; }] *)
Definition checked_interval (configured safe_default : Z) : list event * Z :=
  let interval := to_uint32 configured in
  if interval <=? 0 then ([LogWarning], safe_default) else ([], interval).

Definition effective_interval (configured safe_default : Z) : Z :=
  snd (checked_interval configured safe_default).

Definition _fd_cache_clean_callback (cfg : config) (n : nat) : run :=
  let '(log, interval) :=
    checked_interval (file_descriptor_cache_clean_interval cfg) 3600 in
  mkRun log (while_true n [Sleep interval; Call start_clean_fd_cache]).

Definition _base_compaction_thread_callback (cfg : config) (n : nat) : run :=
  let '(log, interval) :=
    checked_interval (base_compaction_check_interval_seconds cfg) 1 in
  mkRun log
    (while_true n [Call apply_system_cgroup;
                   Call perform_base_compaction;
                   Usleep (mul_uint32 interval 1000000)]).

Definition _disk_stat_monitor_thread_callback (cfg : config) (n : nat) : run :=
  let '(log, interval) :=
    checked_interval (disk_stat_monitor_interval cfg) 1 in
  mkRun log (while_true n [Call start_disk_stat_monitor; Sleep interval]).

Definition _unused_index_thread_callback (cfg : config) (n : nat) : run :=
  let '(log, interval) :=
    checked_interval (unused_index_monitor_interval cfg) 1 in
  mkRun log (while_true n [Call start_delete_unused_index; Sleep interval]).

Definition _cumulative_compaction_thread_callback (cfg : config) (n : nat)
  : run :=
  let '(log, interval) :=
    checked_interval (cumulative_compaction_check_interval_seconds cfg) 1 in
  mkRun (LogInfo :: log)
    (while_true n [Call apply_system_cgroup;
                   Call perform_cumulative_compaction;
                   Usleep (mul_uint32 interval 1000000)]).

(** *** The garbage sweeper *)

(** Start-up validation of the two bounds; the result is
    [(max_interval, min_interval)]. *)
Definition sweep_validate (configured_max configured_min : Z)
  : list event * (Z * Z) :=
  let max_interval := to_uint32 configured_max in
  let min_interval := to_uint32 configured_min in
  if negb ((max_interval >=? min_interval) && (min_interval >? 0)) then
    let min_interval := 1 in
    let max_interval :=
      if max_interval >=? min_interval then max_interval else min_interval in
    ([LogWarning; LogInfo], (max_interval, min_interval))
  else ([], (max_interval, min_interval)).

(** [const double pi = 4 * std::atan(1)] *)
Definition pi : R := (4 * atan 1)%R.

(** The formula of the loop body, before the clamp; [usage] is on the
    percentage scale here. *)
Definition raw_ratio (usage : R) : R :=
  ((1.1 * (pi / 2 - atan (usage / 5 - 14)) - 0.28) / pi)%R.

(** [ratio = ratio > 0 ? ratio : 0] *)
Definition clamp_ratio (ratio : R) : R :=
  if Rlt_dec 0 ratio then ratio else 0%R.

Definition ratio (usage : R) : R := clamp_ratio (raw_ratio usage).

(** Conversion of a [double] to [uint32_t]: the fractional part is
    discarded.  The conversion is undefined in C++ when the truncated
    value does not fit, and this definition is the conversion only for
    [0 <= x < 2^32]: every theorem that uses it keeps the product inside
    that range by its hypotheses. *)
Definition double_to_uint32 (x : R) : Z :=
  if Rle_dec 0 x then Int_part x else - Int_part (- x).

(** The interval of one iteration, from the bounds and the usage
    fraction held at the head of the loop, in exact arithmetic.  The
    [double] computation rounds at every step, so its product can differ
    from the exact one in the last digits and its integer part by one:
    the theorems state bounds, order and the values reached through a
    ratio of exactly 0, which rounding leaves alone. *)
Definition sweep_interval (max_interval min_interval : Z) (usage : R) : Z :=
  let usage := (usage * 100)%R in
  let ratio := raw_ratio usage in
  let ratio := clamp_ratio ratio in
  let curr_interval := double_to_uint32 (IZR max_interval * ratio) in
  if curr_interval >? min_interval then curr_interval else min_interval.

(** The loop, one iteration per answer of [start_trash_sweep]; an answer
    maps the value [usage] holds at the call to the status and to the
    value the callee leaves in [usage]. *)
Fixpoint sweeper_loop (max_interval min_interval : Z) (usage : R)
    (sweeps : list (R -> OLAPStatus * R)) : list (list event) :=
  match sweeps with
  | [] => []
  | sweep :: rest =>
      let curr_interval := sweep_interval max_interval min_interval usage in
      let '(res, usage') := sweep (usage * 100)%R in
      ([Sleep curr_interval; Call start_trash_sweep] ++
       match res with
       | OLAP_SUCCESS => []
       | OLAP_ERR _ => [LogWarning]
       end)
      :: sweeper_loop max_interval min_interval usage' rest
  end.

Definition _garbage_sweeper_thread_callback (cfg : config)
    (sweeps : list (R -> OLAPStatus * R)) : run :=
  let '(log, (max_interval, min_interval)) :=
    sweep_validate (max_garbage_sweep_interval cfg)
                   (min_garbage_sweep_interval cfg) in
  let usage := 1%R in
  mkRun log (sweeper_loop max_interval min_interval usage sweeps).

(** *** Order of the events inside one iteration *)

Definition is_sleep (e : event) : bool :=
  match e with
  | Sleep _ | Usleep _ => true
  | _ => false
  end.

Definition is_action (e : event) : bool :=
  match e with
  | Call _ => true
  | _ => false
  end.

(** Position of the first event satisfying [p]. *)
Fixpoint first_index (p : event -> bool) (l : list event) : option nat :=
  match l with
  | [] => None
  | e :: l' =>
      if p e then Some 0%nat
      else match first_index p l' with
           | Some i => Some (S i)
           | None => None
           end
  end.

(** The iteration sleeps, calls a collaborator, and the sleep comes first. *)
Definition sleep_before_action (iteration : list event) : bool :=
  match first_index is_sleep iteration, first_index is_action iteration with
  | Some i, Some j => (i <? j)%nat
  | _, _ => false
  end.

(** The iteration sleeps, calls a collaborator, and the call comes first. *)
Definition action_before_sleep (iteration : list event) : bool :=
  match first_index is_sleep iteration, first_index is_action iteration with
  | Some i, Some j => (j <? i)%nat
  | _, _ => false
  end.

(** *** The five workers with one validated interval *)

Inductive periodic_worker : Type :=
| FdCacheClean
| DiskStatMonitor
| UnusedIndex
| BaseCompaction
| CumulativeCompaction.

Definition worker_run (w : periodic_worker) : config -> nat -> run :=
  match w with
  | FdCacheClean => _fd_cache_clean_callback
  | DiskStatMonitor => _disk_stat_monitor_thread_callback
  | UnusedIndex => _unused_index_thread_callback
  | BaseCompaction => _base_compaction_thread_callback
  | CumulativeCompaction => _cumulative_compaction_thread_callback
  end.

(** The entry of [config] a worker reads, and the value it falls back to. *)
Definition configured_interval (w : periodic_worker) (cfg : config) : Z :=
  match w with
  | FdCacheClean => file_descriptor_cache_clean_interval cfg
  | DiskStatMonitor => disk_stat_monitor_interval cfg
  | UnusedIndex => unused_index_monitor_interval cfg
  | BaseCompaction => base_compaction_check_interval_seconds cfg
  | CumulativeCompaction => cumulative_compaction_check_interval_seconds cfg
  end.

Definition safe_default (w : periodic_worker) : Z :=
  match w with
  | FdCacheClean => 3600
  | _ => 1
  end.

(** The loop body of a worker whose interval variable holds [interval]. *)
Definition worker_body (w : periodic_worker) (interval : Z) : list event :=
  match w with
  | FdCacheClean => [Sleep interval; Call start_clean_fd_cache]
  | DiskStatMonitor => [Call start_disk_stat_monitor; Sleep interval]
  | UnusedIndex => [Call start_delete_unused_index; Sleep interval]
  | BaseCompaction =>
      [Call apply_system_cgroup; Call perform_base_compaction;
       Usleep (mul_uint32 interval 1000000)]
  | CumulativeCompaction =>
      [Call apply_system_cgroup; Call perform_cumulative_compaction;
       Usleep (mul_uint32 interval 1000000)]
  end.

(** *** Start of the workers *)

(** The two pool sizes of [config], signed 32-bit integers like the
    intervals. *)
Record pool_config : Type := mkPoolConfig {
  base_compaction_num_threads : Z;
  cumulative_compaction_num_threads : Z
}.

(** The callback a started thread runs. *)
Inductive worker : Type :=
| GarbageSweeper
| Periodic (w : periodic_worker).

(** How [_start_bg_worker] ends: with a status, or with the
    [std::length_error] of [reserve]. *)
Inductive outcome : Type :=
| Returned (s : OLAPStatus)
| LengthError.

(** [size_type] of the thread vectors is a 64-bit unsigned integer, and
    their [max_size()] is [PTRDIFF_MAX / sizeof(std::thread)] with a
    [std::thread] of one word. *)
Definition to_size_t (z : Z) : Z := z mod 2 ^ 64.
Definition vector_max_size : Z := (2 ^ 63 - 1) / 8.

(** [threads.reserve(num_threads)] throws when the converted count is
    above [max_size()]. *)
Definition reserve_throws (num_threads : Z) : bool :=
  vector_max_size <? to_size_t num_threads.

(** [for (uint32_t i = 0; i < num_threads; ++i) threads.emplace_back(...)]
    from the value [i] on; the comparison converts [num_threads] to
    [uint32_t].  [fuel] bounds the number of iterations. *)
Fixpoint emplace_loop (fuel : nat) (i num_threads : Z) (w : worker)
  : list worker :=
  match fuel with
  | O => []
  | S fuel' =>
      if i <? to_uint32 num_threads
      then w :: emplace_loop fuel' (to_uint32 (i + 1)) num_threads w
      else []
  end.

(** The threads started, in the order of their start, and the outcome.
    The loop cannot run more often than the converted bound. *)
Definition _start_bg_worker (pc : pool_config) : list worker * outcome :=
  let started :=
    [GarbageSweeper; Periodic DiskStatMonitor; Periodic UnusedIndex] in
  let num_base := base_compaction_num_threads pc in
  if reserve_throws num_base then (started, LengthError) else
  let started :=
    started ++ emplace_loop (Z.to_nat (to_uint32 num_base)) 0 num_base
                            (Periodic BaseCompaction) in
  let num_cumulative := cumulative_compaction_num_threads pc in
  if reserve_throws num_cumulative then (started, LengthError) else
  let started :=
    started ++ emplace_loop (Z.to_nat (to_uint32 num_cumulative)) 0
                            num_cumulative (Periodic CumulativeCompaction) in
  let started := started ++ [Periodic FdCacheClean] in
  (started, Returned OLAP_SUCCESS).


(** *** Reading a trace *)

(** The arguments of the [sleep] calls of a trace, in order. *)
Fixpoint sleep_seconds (l : list event) : list Z :=
  match l with
  | [] => []
  | Sleep s :: l' => s :: sleep_seconds l'
  | _ :: l' => sleep_seconds l'
  end.

(** Number of threads of a list that run the callback [w]. *)
Definition worker_eqb (a b : worker) : bool :=
  match a, b with
  | GarbageSweeper, GarbageSweeper => true
  | Periodic FdCacheClean, Periodic FdCacheClean => true
  | Periodic DiskStatMonitor, Periodic DiskStatMonitor => true
  | Periodic UnusedIndex, Periodic UnusedIndex => true
  | Periodic BaseCompaction, Periodic BaseCompaction => true
  | Periodic CumulativeCompaction, Periodic CumulativeCompaction => true
  | _, _ => false
  end.

Definition count_threads (w : worker) (l : list worker) : nat :=
  List.length (filter (worker_eqb w) l).

(** A configuration with the values the engine ships with. *)
Definition sample_config : config := mkConfig 3600 60 86400 200 5 30 10.

End OlapServer.

(** * Properties *)

(** ** Facts on the machine integers *)

Section IntFacts.

Import Int.

Lemma to_uint32_range (z : Z) : uint32_range (to_uint32 z).
Proof. unfold uint32_range, to_uint32, two32. apply Z.mod_pos_bound. lia. Qed.

Lemma to_uint32_id (z : Z) : uint32_range z -> to_uint32 z = z.
Proof. unfold uint32_range, to_uint32. intros H. now apply Z.mod_small. Qed.

Lemma to_uint32_neg (z : Z) : - two32 <= z < 0 -> to_uint32 z = z + two32.
Proof.
  unfold to_uint32, two32. intros H.
  symmetry. apply Z.mod_unique with (q := -1); lia.
Qed.

Lemma int32_nonneg_uint32 (z : Z) : int32_range z -> 0 <= z -> uint32_range z.
Proof. unfold int32_range, uint32_range, two32. lia. Qed.

End IntFacts.

(** ** [TabletInfo] *)

Section TabletInfoOrder.

Import OlapCommon.

Implicit Types a b c : TabletInfo.

Lemma TabletInfo_lt_spec a b :
  TabletInfo_lt a b = true <->
  tablet_id a < tablet_id b \/
  (tablet_id a = tablet_id b /\ schema_hash a < schema_hash b).
Proof.
  unfold TabletInfo_lt.
  destruct (Z.eqb_spec (tablet_id a) (tablet_id b)) as [E | N]; cbn.
  - rewrite Z.ltb_lt. lia.
  - rewrite Z.ltb_lt. lia.
Qed.

Lemma TabletInfo_eq a b :
  a = b <-> tablet_id a = tablet_id b /\ schema_hash a = schema_hash b.
Proof.
  split.
  - intros ->. split; reflexivity.
  - destruct a, b; cbn. intros [-> ->]. reflexivity.
Qed.

Lemma TabletInfo_lt_irrefl a : TabletInfo_lt a a = false.
Proof.
  destruct (TabletInfo_lt a a) eqn:E; [| reflexivity].
  apply TabletInfo_lt_spec in E. lia.
Qed.

Lemma TabletInfo_lt_trans a b c :
  TabletInfo_lt a b = true -> TabletInfo_lt b c = true ->
  TabletInfo_lt a c = true.
Proof. rewrite !TabletInfo_lt_spec. lia. Qed.

Lemma TabletInfo_lt_trichotomy a b :
  (TabletInfo_lt a b = true /\ TabletInfo_lt b a = false /\ a <> b) \/
  (TabletInfo_lt a b = false /\ TabletInfo_lt b a = true /\ a <> b) \/
  (TabletInfo_lt a b = false /\ TabletInfo_lt b a = false /\ a = b).
Proof.
  rewrite TabletInfo_eq.
  destruct (TabletInfo_lt a b) eqn:Eab, (TabletInfo_lt b a) eqn:Eba.
  - apply TabletInfo_lt_spec in Eab, Eba. lia.
  - apply TabletInfo_lt_spec in Eab. left. repeat split; lia.
  - apply TabletInfo_lt_spec in Eba. right; left. repeat split; lia.
  - right; right. repeat split; try reflexivity.
    + destruct (Z.lt_trichotomy (tablet_id a) (tablet_id b)) as [H | [H | H]];
        [| exact H |].
      * assert (TabletInfo_lt a b = true) by (apply TabletInfo_lt_spec; lia).
        congruence.
      * assert (TabletInfo_lt b a = true) by (apply TabletInfo_lt_spec; lia).
        congruence.
    + destruct (Z.lt_trichotomy (schema_hash a) (schema_hash b))
        as [H | [H | H]]; [| exact H |];
        destruct (Z.lt_trichotomy (tablet_id a) (tablet_id b))
          as [G | [G | G]].
      all: try (assert (TabletInfo_lt a b = true)
                  by (apply TabletInfo_lt_spec; lia); congruence).
      all: try (assert (TabletInfo_lt b a = true)
                  by (apply TabletInfo_lt_spec; lia); congruence).
Qed.

(** C7.  [operator<] of [TabletInfo] is a strict total order: it compares
    [tablet_id] first and [schema_hash] on a tie, it is irreflexive and
    transitive, and for all [a], [b] exactly one of [a < b], [b < a],
    [a = b] holds.  In particular (5,2) < (5,3) < (6,0), and two values
    with the same two fields are equal and neither is less than the
    other. *)
Theorem TabletInfo_lt_strict_total_order :
  (forall a b,
      TabletInfo_lt a b =
      if tablet_id a =? tablet_id b
      then schema_hash a <? schema_hash b
      else tablet_id a <? tablet_id b) /\
  (forall a, TabletInfo_lt a a = false) /\
  (forall a b c,
      TabletInfo_lt a b = true -> TabletInfo_lt b c = true ->
      TabletInfo_lt a c = true) /\
  (forall a b,
      (TabletInfo_lt a b = true /\ TabletInfo_lt b a = false /\ a <> b) \/
      (TabletInfo_lt a b = false /\ TabletInfo_lt b a = true /\ a <> b) \/
      (TabletInfo_lt a b = false /\ TabletInfo_lt b a = false /\ a = b)) /\
  TabletInfo_lt (mkTabletInfo 5 2) (mkTabletInfo 5 3) = true /\
  TabletInfo_lt (mkTabletInfo 5 3) (mkTabletInfo 6 0) = true /\
  (forall a b,
      tablet_id a = tablet_id b -> schema_hash a = schema_hash b ->
      a = b /\ TabletInfo_lt a b = false /\ TabletInfo_lt b a = false).
Proof.
  split; [| split; [| split; [| split; [| split; [| split]]]]].
  - intros a b. unfold TabletInfo_lt.
    destruct (tablet_id a =? tablet_id b); reflexivity.
  - exact TabletInfo_lt_irrefl.
  - exact TabletInfo_lt_trans.
  - exact TabletInfo_lt_trichotomy.
  - reflexivity.
  - reflexivity.
  - intros a b Ht Hs.
    assert (a = b) as -> by (apply TabletInfo_eq; split; assumption).
    repeat split; apply TabletInfo_lt_irrefl.
Qed.

Lemma TabletInfo_lt_strict_total_order_witness :
  TabletInfo_lt (mkTabletInfo 5 2) (mkTabletInfo 6 0) = true /\
  (mkTabletInfo 7 1 = mkTabletInfo 7 1 /\
   TabletInfo_lt (mkTabletInfo 7 1) (mkTabletInfo 7 1) = false /\
   TabletInfo_lt (mkTabletInfo 7 1) (mkTabletInfo 7 1) = false).
Proof.
  destruct TabletInfo_lt_strict_total_order
    as (_ & _ & Htrans & _ & _ & _ & Heq).
  split.
  - apply (Htrans (mkTabletInfo 5 2) (mkTabletInfo 5 3) (mkTabletInfo 6 0));
      reflexivity.
  - apply (Heq (mkTabletInfo 7 1) (mkTabletInfo 7 1)); reflexivity.
Defined.

End TabletInfoOrder.

(** ** [RowSetEntity] and [VersionEntity] *)

Section Entities.

Import OlapCommon.

Lemma add_rowset_entities_vec (rs : list RowSetEntity) :
  forall ve,
    rowset_vec (add_rowset_entities ve rs) = rowset_vec ve ++ rs.
Proof.
  unfold add_rowset_entities.
  induction rs as [| r rs IH]; intros ve; cbn.
  - now rewrite app_nil_r.
  - rewrite IH. cbn. now rewrite <- app_assoc.
Qed.

Lemma add_rowset_entities_version (rs : list RowSetEntity) :
  forall ve,
    version (add_rowset_entities ve rs) = version ve /\
    version_hash (add_rowset_entities ve rs) = version_hash ve.
Proof.
  unfold add_rowset_entities.
  induction rs as [| r rs IH]; intros ve; cbn.
  - split; reflexivity.
  - destruct (IH (add_rowset_entity ve r)) as [-> ->]. split; reflexivity.
Qed.

(** C8.  Calling [add_rowset_entity] with R1, ..., Rn in that order
    appends exactly R1, ..., Rn to [rowset_vec], duplicates included: on
    a [VersionEntity] as constructed, [rowset_vec] is [R1; ...; Rn]
    afterwards; on any other one the entries it held stay in front,
    unchanged.  The length grows by n, the k-th call's entity sits at
    position k, and version and hash are left alone. *)
Theorem add_rowset_entity_preserves_order :
  forall (v : Version) (h : VersionHash) (ve : VersionEntity)
         (rs : list RowSetEntity),
    rowset_vec (add_rowset_entities (VersionEntity_new v h) rs) = rs /\
    rowset_vec (add_rowset_entities ve rs) = rowset_vec ve ++ rs /\
    length (rowset_vec (add_rowset_entities ve rs)) =
      (length (rowset_vec ve) + length rs)%nat /\
    (forall k : nat,
        nth_error (rowset_vec (add_rowset_entities (VersionEntity_new v h) rs)) k
        = nth_error rs k) /\
    version (add_rowset_entities ve rs) = version ve /\
    version_hash (add_rowset_entities ve rs) = version_hash ve.
Proof.
  intros v h ve rs.
  pose proof (add_rowset_entities_vec rs (VersionEntity_new v h)) as Hnew.
  cbn in Hnew.
  pose proof (add_rowset_entities_vec rs ve) as Hve.
  pose proof (add_rowset_entities_version rs ve) as [Hv Hh].
  repeat split.
  - exact Hnew.
  - exact Hve.
  - rewrite Hve. apply length_app.
  - intros k. now rewrite Hnew.
  - exact Hv.
  - exact Hh.
Qed.

(** C9.  A [RowSetEntity] constructed with a null [column_statistics]
    has an empty [key_ranges]; constructed with a vector of length k it
    has [key_ranges] of length k, element by element equal to the
    argument (so also for k = 2).  The other fields are the arguments. *)
Theorem RowSetEntity_key_ranges :
  forall (rid nseg nrows dsize isize : Z) (emp : bool),
    key_ranges (RowSetEntity_new rid nseg nrows dsize isize emp None) = [] /\
    (forall stats : list KeyRange,
        let e := RowSetEntity_new rid nseg nrows dsize isize emp (Some stats) in
        key_ranges e = stats /\
        length (key_ranges e) = length stats /\
        (forall i : nat, nth_error (key_ranges e) i = nth_error stats i)) /\
    (forall k1 k2 : KeyRange,
        key_ranges
          (RowSetEntity_new rid nseg nrows dsize isize emp (Some [k1; k2]))
        = [k1; k2]) /\
    (forall cs,
        let e := RowSetEntity_new rid nseg nrows dsize isize emp cs in
        rowset_id e = rid /\ num_segments e = nseg /\ num_rows e = nrows /\
        data_size e = dsize /\ index_size e = isize /\ empty e = emp).
Proof.
  intros. repeat split; reflexivity.
Qed.

End Entities.


(** ** The workers with one validated interval *)

Section PeriodicWorkers.

Import Int OlapServer.

Lemma effective_interval_zero (d : Z) : effective_interval 0 d = d.
Proof. reflexivity. Qed.

Lemma effective_interval_positive (v d : Z) :
  0 < v < two32 -> effective_interval v d = v.
Proof.
  intros H. unfold effective_interval, checked_interval.
  rewrite to_uint32_id by (unfold uint32_range; lia).
  destruct (Z.leb_spec v 0); [lia | reflexivity].
Qed.

Lemma effective_interval_negative (v d : Z) :
  - two32 < v < 0 -> effective_interval v d = v + two32.
Proof.
  intros H. unfold effective_interval, checked_interval.
  rewrite to_uint32_neg by lia.
  destruct (Z.leb_spec (v + two32) 0); [lia | reflexivity].
Qed.

Lemma effective_interval_range (v d : Z) :
  0 < d < two32 -> 0 < effective_interval v d < two32.
Proof.
  intros H. unfold effective_interval, checked_interval.
  pose proof (to_uint32_range v) as R. unfold uint32_range in R.
  destruct (Z.leb_spec (to_uint32 v) 0); cbn [snd]; lia.
Qed.

Lemma worker_iterations (w : periodic_worker) (cfg : config) (n : nat) :
  iterations (worker_run w cfg n) =
  while_true n
    (worker_body w (effective_interval (configured_interval w cfg)
                                       (safe_default w))).
Proof.
  unfold effective_interval.
  destruct w;
    cbn [worker_run configured_interval safe_default worker_body];
    unfold _fd_cache_clean_callback, _disk_stat_monitor_thread_callback,
      _unused_index_thread_callback, _base_compaction_thread_callback,
      _cumulative_compaction_thread_callback;
    match goal with
    | |- context [checked_interval ?c ?d] => destruct (checked_interval c d)
    end; reflexivity.
Qed.

Lemma worker_iteration_body w cfg n (it : list event) :
  In it (iterations (worker_run w cfg n)) ->
  it = worker_body w (effective_interval (configured_interval w cfg)
                                         (safe_default w)).
Proof.
  rewrite worker_iterations. unfold while_true. intros H.
  now apply repeat_spec in H.
Qed.

Lemma worker_iterations_length w cfg n :
  length (iterations (worker_run w cfg n)) = n.
Proof. rewrite worker_iterations. apply repeat_length. Qed.

(** C4.  The interval check is made on the value already converted to
    [uint32_t].  A configured [-1] is 4294967295 there, the test
    [interval <= 0] does not fire, no warning is logged, and every one of
    the five workers sleeps on 4294967295 (the compaction workers on its
    product with 1000000 modulo 2^32) instead of its safe default. *)
Theorem negative_interval_escapes_check :
  let cfg := mkConfig (-1) (-1) 86400 200 (-1) (-1) (-1) in
  config_wf cfg /\
  effective_interval (-1) 3600 = 4294967295 /\
  effective_interval (-1) 1 = 4294967295 /\
  _fd_cache_clean_callback cfg 1 =
    mkRun [] [[Sleep 4294967295; Call start_clean_fd_cache]] /\
  _disk_stat_monitor_thread_callback cfg 1 =
    mkRun [] [[Call start_disk_stat_monitor; Sleep 4294967295]] /\
  _unused_index_thread_callback cfg 1 =
    mkRun [] [[Call start_delete_unused_index; Sleep 4294967295]] /\
  _base_compaction_thread_callback cfg 1 =
    mkRun [] [[Call apply_system_cgroup; Call perform_base_compaction;
               Usleep 4293967296]] /\
  _cumulative_compaction_thread_callback cfg 1 =
    mkRun [LogInfo]
          [[Call apply_system_cgroup; Call perform_cumulative_compaction;
            Usleep 4293967296]].
Proof.
  cbv zeta. split.
  - unfold config_wf, int32_range; cbn. lia.
  - repeat split; vm_compute; reflexivity.
Qed.

(** The check does what the workers' table says on the values it can see:
    zero gives the safe default, a positive value is kept. *)
Lemma interval_check_on_nonnegative (w : periodic_worker) (cfg : config) :
  int32_range (configured_interval w cfg) ->
  (configured_interval w cfg = 0 ->
   effective_interval (configured_interval w cfg) (safe_default w)
   = safe_default w) /\
  (0 < configured_interval w cfg ->
   effective_interval (configured_interval w cfg) (safe_default w)
   = configured_interval w cfg) /\
  (configured_interval w cfg < 0 ->
   effective_interval (configured_interval w cfg) (safe_default w)
   = configured_interval w cfg + two32).
Proof.
  unfold int32_range. intros R. repeat split; intros H.
  - rewrite H. apply effective_interval_zero.
  - apply effective_interval_positive. unfold two32. lia.
  - apply effective_interval_negative. unfold two32. lia.
Qed.

(** C6, as the claim has it: it fails.  The disk-stat monitor calls
    [start_disk_stat_monitor] first and sleeps afterwards, so not every
    iteration of every worker sleeps before it acts. *)
Lemma sleep_first_fails_for_disk_stat_monitor :
  ~ (forall (w : periodic_worker) (cfg : config) (n : nat) (it : list event),
        In it (iterations (worker_run w cfg n)) ->
        sleep_before_action it = true).
Proof.
  intros H.
  specialize (H DiskStatMonitor sample_config 1%nat
                [Call start_disk_stat_monitor; Sleep 5]).
  assert (sleep_before_action [Call start_disk_stat_monitor; Sleep 5] = true)
    as Habs by (apply H; left; reflexivity).
  discriminate Habs.
Qed.

(** C6, amended.  A worker run for [n] iterations performs [n] of them,
    all alike.  With [i] the current interval, every iteration of the
    fd-cache cleaner is [sleep(i)] followed by its action; every iteration
    of the disk-stat monitor and of the unused-index cleaner is the action
    followed by [sleep(i)]; every iteration of a compaction worker is the
    join of the resource group, the compaction pass, and then [usleep] of
    [i * 1000000] taken on 32 bits.  So the first worker sleeps before it
    acts and the four others act, completely, before they sleep. *)
Theorem worker_sleep_action_order :
  forall (w : periodic_worker) (cfg : config) (n : nat),
    let i := effective_interval (configured_interval w cfg) (safe_default w) in
    length (iterations (worker_run w cfg n)) = n /\
    (forall it : list event,
        In it (iterations (worker_run w cfg n)) ->
        it = match w with
             | FdCacheClean => [Sleep i; Call start_clean_fd_cache]
             | DiskStatMonitor => [Call start_disk_stat_monitor; Sleep i]
             | UnusedIndex => [Call start_delete_unused_index; Sleep i]
             | BaseCompaction =>
                 [Call apply_system_cgroup; Call perform_base_compaction;
                  Usleep ((i * 1000000) mod 2 ^ 32)]
             | CumulativeCompaction =>
                 [Call apply_system_cgroup; Call perform_cumulative_compaction;
                  Usleep ((i * 1000000) mod 2 ^ 32)]
             end /\
        if match w with FdCacheClean => true | _ => false end
        then sleep_before_action it = true /\ action_before_sleep it = false
        else action_before_sleep it = true /\ sleep_before_action it = false).
Proof.
  intros w cfg n i. split.
  - apply worker_iterations_length.
  - intros it Hit. apply worker_iteration_body in Hit. fold i in Hit.
    subst it. destruct w; repeat split; reflexivity.
Qed.

Lemma worker_sleep_action_order_witness :
  ([Sleep 3600; Call start_clean_fd_cache] =
     [Sleep (effective_interval 3600 3600); Call start_clean_fd_cache] /\
   sleep_before_action [Sleep 3600; Call start_clean_fd_cache] = true /\
   action_before_sleep [Sleep 3600; Call start_clean_fd_cache] = false) /\
  ([Call start_disk_stat_monitor; Sleep 5] =
     [Call start_disk_stat_monitor; Sleep (effective_interval 5 1)] /\
   action_before_sleep [Call start_disk_stat_monitor; Sleep 5] = true /\
   sleep_before_action [Call start_disk_stat_monitor; Sleep 5] = false).
Proof.
  split.
  - apply (proj2 (worker_sleep_action_order FdCacheClean sample_config 2)
                 [Sleep 3600; Call start_clean_fd_cache]).
    left; reflexivity.
  - apply (proj2 (worker_sleep_action_order DiskStatMonitor sample_config 2)
                 [Call start_disk_stat_monitor; Sleep 5]).
    left; reflexivity.
Defined.

Lemma mul_uint32_short (i : Z) :
  4295 <= i -> mul_uint32 i 1000000 < i * 1000000.
Proof.
  intros H. unfold mul_uint32, two32.
  pose proof (Z.mod_pos_bound (i * 1000000) (2 ^ 32) ltac:(lia)) as B.
  lia.
Qed.

(** C10.  The compaction workers hold the effective interval [i] in a
    [uint32_t], a value of 1 .. 2^32-1.  Each of their iterations ends with
    [usleep] of [(i * 1000000) mod 2^32] microseconds, the product being
    taken on 32 bits.  From [i = 4295] on this is less than [i] seconds;
    below, the product fits and the sleep is [i] seconds. *)
Theorem compaction_usleep_wraps :
  forall (cfg : config) (n : nat),
    let ib := effective_interval (base_compaction_check_interval_seconds cfg) 1 in
    let ic :=
      effective_interval (cumulative_compaction_check_interval_seconds cfg) 1 in
    (0 < ib < two32 /\ 0 < ic < two32) /\
    iterations (_base_compaction_thread_callback cfg n) =
      repeat [Call apply_system_cgroup; Call perform_base_compaction;
              Usleep ((ib * 1000000) mod 2 ^ 32)] n /\
    iterations (_cumulative_compaction_thread_callback cfg n) =
      repeat [Call apply_system_cgroup; Call perform_cumulative_compaction;
              Usleep ((ic * 1000000) mod 2 ^ 32)] n /\
    (forall i : Z,
        4295 <= i < two32 -> (i * 1000000) mod 2 ^ 32 < i * 1000000) /\
    (forall i : Z,
        0 <= i < 4295 -> (i * 1000000) mod 2 ^ 32 = i * 1000000).
Proof.
  intros cfg n ib ic. repeat split.
  - apply effective_interval_range. unfold two32. lia.
  - apply effective_interval_range. unfold two32. lia.
  - apply effective_interval_range. unfold two32. lia.
  - apply effective_interval_range. unfold two32. lia.
  - exact (worker_iterations BaseCompaction cfg n).
  - exact (worker_iterations CumulativeCompaction cfg n).
  - intros i [H _]. exact (mul_uint32_short i H).
  - intros i H. apply Z.mod_small. lia.
Qed.

Lemma compaction_usleep_wraps_witness :
  (4295 * 1000000) mod 2 ^ 32 < 4295 * 1000000 /\
  (60 * 1000000) mod 2 ^ 32 = 60 * 1000000.
Proof.
  destruct (compaction_usleep_wraps sample_config 1) as (_ & _ & _ & Hw & Hs).
  split.
  - apply (Hw 4295). unfold two32. lia.
  - apply (Hs 60). lia.
Defined.

End PeriodicWorkers.

(** ** Start-up validation of the garbage sweeper *)

Section SweepValidation.

Import Int OlapServer.

(** What the check leaves behind, for every pair of configured values. *)
Lemma sweep_validate_invariant (cmax cmin : Z) :
  let '(_, (max', min')) := sweep_validate cmax cmin in
  1 <= min' /\ min' <= max' /\ max' < two32.
Proof.
  unfold sweep_validate.
  pose proof (to_uint32_range cmax) as Rx.
  pose proof (to_uint32_range cmin) as Rn.
  unfold uint32_range, two32 in *.
  destruct (Z.geb_spec (to_uint32 cmax) (to_uint32 cmin));
    destruct (Z.gtb_spec (to_uint32 cmin) 0); cbn [negb andb]; cbv zeta;
    try (destruct (Z.geb_spec (to_uint32 cmax) 1)); cbv beta iota; lia.
Qed.

(** On values that are not negative the check is the one of the claim. *)
Lemma sweep_validate_nonnegative (cmax cmin : Z) :
  0 <= cmax < two32 -> 0 <= cmin < two32 ->
  (cmin <= 0 \/ cmax < cmin ->
   sweep_validate cmax cmin = ([LogWarning; LogInfo], (Z.max cmax 1, 1))) /\
  (cmax >= cmin /\ cmin > 0 ->
   sweep_validate cmax cmin = ([], (cmax, cmin))).
Proof.
  intros Hx Hn. unfold sweep_validate.
  rewrite !to_uint32_id by assumption.
  unfold two32 in *.
  destruct (Z.geb_spec cmax cmin) as [G1 | G1];
    destruct (Z.gtb_spec cmin 0) as [G2 | G2];
    cbn [negb andb]; cbv zeta; split; intros G3; try lia; try reflexivity;
    destruct (Z.geb_spec cmax 1); repeat f_equal; lia.
Qed.

(** C3.  The bounds are converted to [uint32_t] before they are checked.
    Configured [min = -5], [max = -1] are 4294967291 and 4294967295 there
    and pass unchanged, without a warning: [min'] is not 1.  Configured
    [min = 0], [max = -7] are reset to [min' = 1], [max' = 4294967289],
    not to [max (-7) 1 = 1]. *)
Theorem negative_sweep_bounds_escape_check :
  int32_range (-5) /\ int32_range (-1) /\ int32_range (-7) /\
  sweep_validate (-1) (-5) = ([], (4294967295, 4294967291)) /\
  sweep_validate (-7) 0 = ([LogWarning; LogInfo], (4294967289, 1)) /\
  Z.max (-7) 1 = 1.
Proof.
  unfold int32_range. repeat split; try lia; vm_compute; congruence.
Qed.

End SweepValidation.

(** ** The damping ratio of the garbage sweeper *)

Section SweepRatio.

Import Int OlapServer.

Local Open Scope R_scope.

(** *** Bounds on [atan] and [PI] *)

Lemma Rdiv_lt_bound (a b c : R) : 0 < c -> a < b * c -> a / c < b.
Proof.
  intros Hc H. replace b with (b * c / c) by (field; lra).
  unfold Rdiv. apply Rmult_lt_compat_r; [| exact H].
  now apply Rinv_0_lt_compat.
Qed.

Lemma Rdiv_gt_bound (a b c : R) : 0 < c -> b * c < a -> b < a / c.
Proof.
  intros Hc H. replace b with (b * c / c) by (field; lra).
  unfold Rdiv. apply Rmult_lt_compat_r; [| exact H].
  now apply Rinv_0_lt_compat.
Qed.

(** Mean value form of [atan] on [0, x]. *)
Lemma atan_mean_value (x : R) :
  0 < x -> exists c : R, atan x = x / (1 + c ^ 2) /\ 0 < c < x.
Proof.
  intros Hx.
  destruct (MVT_cor2 atan (fun c => / (1 + c ^ 2)) 0 x Hx) as (c & Hc & Hr).
  - intros c _. apply derivable_pt_lim_atan.
  - exists c. split; [| exact Hr]. rewrite atan_0 in Hc. lra.
Qed.

Lemma atan_lt_id (x : R) : 0 < x -> atan x < x.
Proof.
  intros Hx. destruct (atan_mean_value x Hx) as (c & -> & Hc).
  assert (1 < 1 + c ^ 2) as H1 by nra.
  apply Rdiv_lt_bound; [lra |]. nra.
Qed.

Lemma atan_lower (x : R) : 0 < x -> x / (1 + x ^ 2) < atan x.
Proof.
  intros Hx. destruct (atan_mean_value x Hx) as (c & -> & Hc).
  assert (0 < 1 + c ^ 2) as H1 by nra.
  assert (1 + c ^ 2 < 1 + x ^ 2) as H2 by nra.
  unfold Rdiv. apply Rmult_lt_compat_l; [exact Hx |].
  apply Rinv_lt_contravar; [nra | exact H2].
Qed.

(** [atan] of a positive argument, through its reciprocal. *)
Lemma atan_by_inverse (x : R) : 0 < x -> atan x = PI / 2 - atan (/ x).
Proof. intros Hx. rewrite (atan_inv x Hx). lra. Qed.

Lemma PI_lower : 3 < PI.
Proof. pose proof PI2_3_2. lra. Qed.

Lemma PI_upper : PI <= 52 / 15.
Proof.
  destruct (PI_ineq 1) as [_ H].
  unfold sum_f_R0, tg_alt, PI_tg in H. simpl in H. lra.
Qed.

(** *** The formula *)

Lemma pi_PI : pi = PI.
Proof. unfold pi. rewrite atan_1. lra. Qed.

Lemma raw_ratio_PI (p : R) :
  raw_ratio p = (1.1 * (PI / 2 - atan (p / 5 - 14)) - 0.28) / PI.
Proof. unfold raw_ratio. now rewrite pi_PI. Qed.

Lemma clamp_ratio_Rmax (r : R) : clamp_ratio r = Rmax 0 r.
Proof.
  unfold clamp_ratio, Rmax.
  destruct (Rlt_dec 0 r), (Rle_dec 0 r); lra.
Qed.

Lemma clamp_ratio_nonneg (r : R) : 0 <= clamp_ratio r.
Proof. unfold clamp_ratio. destruct (Rlt_dec 0 r); lra. Qed.

Lemma clamp_ratio_negative (r : R) : r <= 0 -> clamp_ratio r = 0.
Proof. unfold clamp_ratio. destruct (Rlt_dec 0 r); lra. Qed.

Lemma clamp_ratio_positive (r : R) : 0 < r -> clamp_ratio r = r.
Proof. unfold clamp_ratio. destruct (Rlt_dec 0 r); lra. Qed.

Lemma clamp_ratio_monotone (r s : R) : r <= s -> clamp_ratio r <= clamp_ratio s.
Proof.
  unfold clamp_ratio. destruct (Rlt_dec 0 r), (Rlt_dec 0 s); lra.
Qed.

Lemma raw_ratio_antitone (p q : R) : p <= q -> raw_ratio q <= raw_ratio p.
Proof.
  intros Hpq. rewrite !raw_ratio_PI.
  assert (atan (p / 5 - 14) <= atan (q / 5 - 14)) as Hat.
  { destruct Hpq as [Hlt | ->]; [| lra].
    left. apply atan_increasing. lra. }
  pose proof PI_lower as HPI.
  unfold Rdiv at 1 4. apply Rmult_le_compat_r.
  - left. apply Rinv_0_lt_compat. lra.
  - lra.
Qed.

Lemma ratio_antitone (p q : R) : p <= q -> ratio q <= ratio p.
Proof.
  intros H. unfold ratio. apply clamp_ratio_monotone.
  now apply raw_ratio_antitone.
Qed.

(** Value of the formula at an argument right of the inflection point
    [p = 70], through [atan (/ x)]. *)
Lemma raw_ratio_right (p : R) :
  70 < p ->
  raw_ratio p = (1.1 * atan (/ (p / 5 - 14)) - 0.28) / PI.
Proof.
  intros Hp. rewrite raw_ratio_PI.
  rewrite (atan_inv (p / 5 - 14)) by lra.
  f_equal; lra.
Qed.

(** Value of the formula left of [p = 70]. *)
Lemma raw_ratio_left (p : R) :
  p < 70 ->
  raw_ratio p = (1.1 * (PI - atan (/ (14 - p / 5))) - 0.28) / PI.
Proof.
  intros Hp. rewrite raw_ratio_PI.
  replace (p / 5 - 14) with (- (14 - p / 5)) by lra.
  rewrite atan_opp, (atan_by_inverse (14 - p / 5)) by lra.
  f_equal; lra.
Qed.

Lemma raw_ratio_30 : 0.9 < raw_ratio 30.
Proof.
  rewrite raw_ratio_left by lra.
  replace (14 - 30 / 5) with 8 by lra.
  pose proof (atan_lt_id (/ 8) ltac:(lra)) as Ha.
  pose proof PI_lower as HPI.
  apply Rdiv_gt_bound; [lra |]. lra.
Qed.

Lemma raw_ratio_90 : raw_ratio 90 < 0.
Proof.
  rewrite raw_ratio_right by lra.
  replace (90 / 5 - 14) with 4 by lra.
  pose proof (atan_lt_id (/ 4) ltac:(lra)) as Ha.
  pose proof PI_lower as HPI.
  apply Rdiv_lt_bound; [lra |]. lra.
Qed.

Lemma raw_ratio_100 : raw_ratio 100 < 0.
Proof.
  rewrite raw_ratio_right by lra.
  replace (100 / 5 - 14) with 6 by lra.
  pose proof (atan_lt_id (/ 6) ltac:(lra)) as Ha.
  pose proof PI_lower as HPI.
  apply Rdiv_lt_bound; [lra |]. lra.
Qed.

Lemma raw_ratio_0 : raw_ratio 0 < 1.
Proof.
  rewrite raw_ratio_left by lra.
  replace (14 - 0 / 5) with 14 by lra.
  pose proof (atan_lower (/ 14) ltac:(lra)) as Ha.
  replace (/ 14 / (1 + (/ 14) ^ 2)) with (14 / 197) in Ha by field.
  pose proof PI_lower as HPl. pose proof PI_upper as HPu.
  apply Rdiv_lt_bound; [lra |]. lra.
Qed.

Lemma ratio_unit_interval (p : R) : 0 <= p -> 0 <= ratio p <= 1.
Proof.
  intros Hp. split.
  - apply clamp_ratio_nonneg.
  - apply Rle_trans with (ratio 0).
    + now apply ratio_antitone.
    + unfold ratio, clamp_ratio. pose proof raw_ratio_0.
      destruct (Rlt_dec 0 (raw_ratio 0)); lra.
Qed.

(** C1.  The damping ratio is the formula
    [(1.1 * (PI/2 - atan (p/5 - 14)) - 0.28) / PI] clamped below at 0.  It
    is non-increasing in [p] on [0, 100]; [ratio 30 > 0.9];
    [ratio 90 < 0.02]; and wherever the formula is negative the clamped
    value is exactly 0. *)
Theorem ratio_properties :
  (forall p : R,
      ratio p = Rmax 0 ((1.1 * (PI / 2 - atan (p / 5 - 14)) - 0.28) / PI)) /\
  (forall p q : R, 0 <= p -> p <= q -> q <= 100 -> ratio q <= ratio p) /\
  ratio 30 > 0.9 /\
  ratio 90 < 0.02 /\
  (forall p : R, raw_ratio p < 0 -> ratio p = 0).
Proof.
  repeat split.
  - intros p. unfold ratio. now rewrite clamp_ratio_Rmax, raw_ratio_PI.
  - intros p q _ Hpq _. now apply ratio_antitone.
  - unfold ratio. pose proof raw_ratio_30.
    rewrite clamp_ratio_positive; lra.
  - unfold ratio. pose proof raw_ratio_90.
    rewrite clamp_ratio_negative; lra.
  - intros p Hp. unfold ratio. apply clamp_ratio_negative. lra.
Qed.

Lemma ratio_properties_witness : ratio 100 <= ratio 30 /\ ratio 100 = 0.
Proof.
  destruct ratio_properties as (_ & Hmono & _ & _ & Hzero).
  split.
  - apply (Hmono 30 100); lra.
  - apply (Hzero 100). exact raw_ratio_100.
Defined.

End SweepRatio.

(** ** The interval of the garbage sweeper *)

Section SweepInterval.

Import Int OlapServer.

Lemma Int_part_0 : Int_part 0 = 0%Z.
Proof. symmetry. apply Int_part_spec. cbn. lra. Qed.

Lemma double_to_uint32_bounds (x : R) (m : Z) :
  (0 <= x <= IZR m)%R -> (0 <= double_to_uint32 x <= m)%Z.
Proof.
  intros [H0 Hm]. unfold double_to_uint32.
  destruct (Rle_dec 0 x) as [_ | N]; [| contradiction].
  destruct (base_Int_part x) as [Hle Hgt]. split.
  - assert (-1 < Int_part x)%Z by (apply lt_IZR; lra). lia.
  - apply le_IZR. lra.
Qed.

Lemma sweep_interval_max (max_interval min_interval : Z) (usage : R) :
  sweep_interval max_interval min_interval usage =
  Z.max (double_to_uint32 (IZR max_interval * ratio (usage * 100)))
        min_interval.
Proof.
  unfold sweep_interval, ratio.
  destruct (Z.gtb_spec
              (double_to_uint32
                 (IZR max_interval * clamp_ratio (raw_ratio (usage * 100))))
              min_interval); lia.
Qed.

Lemma sweep_interval_bounds (max_interval min_interval : Z) (usage : R) :
  (0 < min_interval <= max_interval)%Z -> (0 <= usage <= 1)%R ->
  (min_interval <= sweep_interval max_interval min_interval usage
                <= max_interval)%Z.
Proof.
  intros Hm Hu. rewrite sweep_interval_max.
  destruct (ratio_unit_interval (usage * 100) ltac:(lra)) as [Hr0 Hr1].
  assert (0 < IZR max_interval)%R as Hpos by (apply IZR_lt; lia).
  pose proof (double_to_uint32_bounds
                (IZR max_interval * ratio (usage * 100)) max_interval
                ltac:(split; nra)) as B.
  lia.
Qed.

(** Whatever the configuration, the bounds that leave the validation
    frame every interval computed from a usage fraction in [0, 1]. *)
Lemma sweep_interval_after_validation (cmax cmin : Z) (usage : R) :
  (0 <= usage <= 1)%R ->
  let '(_, (max', min')) := sweep_validate cmax cmin in
  (min' <= sweep_interval max' min' usage <= max')%Z.
Proof.
  intros Hu. pose proof (sweep_validate_invariant cmax cmin) as Hinv.
  destruct (sweep_validate cmax cmin) as [log [max' min']].
  apply sweep_interval_bounds; [lia | exact Hu].
Qed.

Lemma raw_ratio_0_margin : (raw_ratio 0 < 0.997)%R.
Proof.
  rewrite raw_ratio_left by lra.
  replace (14 - 0 / 5)%R with 14%R by lra.
  pose proof (atan_lower (/ 14) ltac:(lra)) as Ha.
  replace (/ 14 / (1 + (/ 14) ^ 2))%R with (14 / 197)%R in Ha by field.
  pose proof PI_lower as HPl. pose proof PI_upper as HPu.
  apply Rdiv_lt_bound; lra.
Qed.

Lemma ratio_margin (p : R) : (0 <= p)%R -> (0 <= ratio p <= 0.997)%R.
Proof.
  intros Hp. split; [apply clamp_ratio_nonneg |].
  apply Rle_trans with (ratio 0); [now apply ratio_antitone |].
  unfold ratio, clamp_ratio. pose proof raw_ratio_0_margin.
  destruct (Rlt_dec 0 (raw_ratio 0)); lra.
Qed.

(** C2.  For validated bounds, [0 < min_interval <= max_interval] held in
    [uint32_t], and a usage fraction in [0, 1], the interval of the
    iteration, [max_interval * ratio (usage * 100)] cut to an integer and
    raised to [min_interval], lies in [min_interval, max_interval].  The
    bound does not hang on exact arithmetic: the ratio stays below 0.997
    there, so any product from 0 up to three thousandths above the exact
    one, which covers what the rounding of the [double] operations can
    do, is cut to a value within the bounds as well. *)
Theorem sweep_interval_within_bounds :
  forall (max_interval min_interval : Z) (usage : R),
    (0 < min_interval)%Z -> (min_interval <= max_interval)%Z ->
    (max_interval < two32)%Z ->
    (0 <= usage <= 1)%R ->
    (min_interval <= sweep_interval max_interval min_interval usage
                  <= max_interval)%Z /\
    (0 <= ratio (usage * 100) <= 0.997)%R /\
    (forall product : R,
        (0 <= product
           <= 1.003 * (IZR max_interval * ratio (usage * 100)))%R ->
        (min_interval <= Z.max (double_to_uint32 product) min_interval
                      <= max_interval)%Z).
Proof.
  intros max_interval min_interval usage Hmin Hle Hmax Hu.
  pose proof (ratio_margin (usage * 100) ltac:(lra)) as Hr.
  split; [apply sweep_interval_bounds; [lia | exact Hu] |].
  split; [exact Hr |].
  intros product Hp.
  assert (0 < IZR max_interval)%R as Hpos by (apply IZR_lt; lia).
  pose proof (double_to_uint32_bounds product max_interval
                ltac:(split; nra)) as B.
  lia.
Qed.

Lemma sweep_interval_within_bounds_witness :
  (200 <= sweep_interval 86400 200 (1 / 2) <= 86400)%Z /\
  (0 <= ratio (1 / 2 * 100) <= 0.997)%R.
Proof.
  destruct (sweep_interval_within_bounds 86400 200 (1 / 2)) as (H1 & H2 & _).
  - lia.
  - lia.
  - unfold two32. lia.
  - lra.
  - split; [exact H1 | exact H2].
Defined.

(** Every sleep of the sweeper is within the validated bounds, as long as
    [start_trash_sweep] leaves a fraction in [0, 1] behind. *)
Lemma sweeper_loop_first_sleep (max_interval min_interval : Z) (usage : R)
    (sweep : R -> OLAPStatus * R) (rest : list (R -> OLAPStatus * R)) :
  exists (tail : list event) (its : list (list event)),
    sweeper_loop max_interval min_interval usage (sweep :: rest) =
    (Sleep (sweep_interval max_interval min_interval usage)
       :: Call start_trash_sweep :: tail) :: its.
Proof.
  cbn [sweeper_loop]. destruct (sweep (usage * 100)%R) as [res usage'].
  do 2 eexists. reflexivity.
Qed.

(** C5.  Configured [min = 1], [max = 3600] pass the validation
    unchanged; the state is seeded with [usage = 1.0]; the first interval
    the worker computes is [max (3600 * ratio 100) 1], which is
    [min_interval = 1] because [ratio 100] is clamped to 0; so the first
    thing the worker does is to sleep one second. *)
Theorem first_sweep_interval :
  forall (fd bc ds ui cc : Z)
         (sweep : R -> OLAPStatus * R) (rest : list (R -> OLAPStatus * R)),
    let cfg := mkConfig fd bc 3600 1 ds ui cc in
    sweep_validate 3600 1 = ([], (3600, 1))%Z /\
    sweep_interval 3600 1 1 =
      Z.max (double_to_uint32 (3600 * ratio 100)) 1 /\
    ratio 100 = 0%R /\
    sweep_interval 3600 1 1 = 1%Z /\
    startup (_garbage_sweeper_thread_callback cfg (sweep :: rest)) = [] /\
    exists (tail : list event) (its : list (list event)),
      iterations (_garbage_sweeper_thread_callback cfg (sweep :: rest)) =
      (Sleep 1 :: Call start_trash_sweep :: tail) :: its.
Proof.
  intros fd bc ds ui cc sweep rest cfg.
  assert (sweep_validate 3600 1 = ([], (3600, 1))%Z) as Hval by reflexivity.
  assert (ratio 100 = 0%R) as Hr
      by (unfold ratio; apply clamp_ratio_negative;
          pose proof raw_ratio_100; lra).
  assert (sweep_interval 3600 1 1 =
          Z.max (double_to_uint32 (3600 * ratio 100)) 1) as Hform.
  { rewrite sweep_interval_max. now rewrite Rmult_1_l. }
  assert (sweep_interval 3600 1 1 = 1%Z) as Hone.
  { rewrite Hform, Hr, Rmult_0_r. unfold double_to_uint32.
    destruct (Rle_dec 0 0) as [_ | N]; [| exfalso; lra].
    rewrite Int_part_0. reflexivity. }
  split; [exact Hval | split; [exact Hform | split; [exact Hr |
    split; [exact Hone | split]]]].
  - unfold _garbage_sweeper_thread_callback, cfg.
    cbn [max_garbage_sweep_interval min_garbage_sweep_interval].
    rewrite Hval. reflexivity.
  - unfold _garbage_sweeper_thread_callback, cfg.
    cbn [max_garbage_sweep_interval min_garbage_sweep_interval].
    rewrite Hval. cbn [iterations].
    destruct (sweeper_loop_first_sleep 3600 1 1 sweep rest)
      as (tail & its & ->).
    rewrite Hone. do 2 eexists. reflexivity.
Qed.

End SweepInterval.

(** ** The string form of [TabletInfo] *)

Section TabletInfoString.

Import OlapCommon.

Local Open Scope string_scope.

Lemma count_char_app (c : ascii) (s t : string) :
  count_char c (s ++ t) = (count_char c s + count_char c t)%nat.
Proof.
  induction s as [| a s IH]; cbn; [reflexivity |].
  destruct (Ascii.eqb a c); cbn; now rewrite IH.
Qed.

Lemma string_of_uint_no_dot (d : Decimal.uint) :
  count_char "." (NilEmpty.string_of_uint d) = 0%nat.
Proof. induction d; cbn; assumption || reflexivity. Qed.

Lemma decimal_no_dot (z : Z) : count_char "." (decimal z) = 0%nat.
Proof.
  unfold decimal. destruct (Z.to_int z) as [d | d]; cbn.
  - apply string_of_uint_no_dot.
  - apply string_of_uint_no_dot.
Qed.

Lemma decimal_injective (a b : Z) : decimal a = decimal b -> a = b.
Proof.
  unfold decimal. intros H.
  assert (Some (Z.to_int a) = Some (Z.to_int b)) as E
      by (rewrite <- !NilEmpty.isi; now rewrite H).
  injection E as E.
  rewrite <- (DecimalZ.of_to a), <- (DecimalZ.of_to b). now rewrite E.
Qed.

(** Two texts without a dot, each followed by a dot and a rest: equal
    wholes have equal parts. *)
Lemma split_at_dot (s1 s2 t1 t2 : string) :
  count_char "." s1 = 0%nat -> count_char "." s2 = 0%nat ->
  s1 ++ "." ++ t1 = s2 ++ "." ++ t2 -> s1 = s2 /\ t1 = t2.
Proof.
  revert s2. induction s1 as [| a s1 IH]; intros [| b s2] H1 H2 E; cbn in *.
  - injection E as E. now split.
  - injection E as Eb E. subst b. cbn in H2. discriminate.
  - injection E as Ea E. subst a. cbn in H1. discriminate.
  - injection E as Eab E. subst b.
    destruct (Ascii.eqb a ".") eqn:Ed; [discriminate |].
    destruct (IH s2 H1 H2 E) as [-> ->]. now split.
Qed.

(** X1.  [to_string] identifies the tablet: two values have the same
    string exactly when they have the same [tablet_id] and the same
    [schema_hash], that is exactly when neither is less than the other. *)
Theorem to_string_injective :
  forall a b : TabletInfo,
    (to_string a = to_string b -> a = b) /\
    (to_string a = to_string b <->
     TabletInfo_lt a b = false /\ TabletInfo_lt b a = false).
Proof.
  assert (forall a b : TabletInfo, to_string a = to_string b -> a = b) as Inj.
  { intros [ta sa] [tb sb]. unfold to_string. cbn [tablet_id schema_hash].
    intros E. cbn in E. injection E as E.
    apply split_at_dot in E; try apply decimal_no_dot.
    destruct E as [Et Es].
    apply decimal_injective in Et, Es. now subst. }
  intros a b. split; [apply Inj |]. split.
  - intros E. apply Inj in E. subst b.
    split; apply TabletInfo_lt_irrefl.
  - intros [Hab Hba].
    destruct (TabletInfo_lt_trichotomy a b)
      as [(H & _) | [(_ & H & _) | (_ & _ & ->)]]; congruence.
Qed.

Lemma to_string_injective_witness :
  mkTabletInfo 5 2 = mkTabletInfo 5 2 /\
  TabletInfo_lt (mkTabletInfo 5 2) (mkTabletInfo 5 2) = false.
Proof.
  split.
  - apply (proj1 (to_string_injective (mkTabletInfo 5 2) (mkTabletInfo 5 2))).
    reflexivity.
  - apply (proj1 (proj2 (to_string_injective (mkTabletInfo 5 2)
                                             (mkTabletInfo 5 2)))).
    reflexivity.
Defined.

(** X2.  The string form is a dot, the decimal text of [tablet_id], a
    dot, and the decimal text of [schema_hash]: it starts with a dot and
    holds exactly two dots, whatever the signs of the two numbers; so
    (5, 2) reads [.5.2] and (-9, 0) reads [.-9.0]. *)
Theorem to_string_shape :
  forall t : TabletInfo,
    (exists rest : string, to_string t = String "." rest) /\
    count_char "." (to_string t) = 2%nat /\
    to_string (mkTabletInfo 5 2) = ".5.2" /\
    to_string (mkTabletInfo (-9) 0) = ".-9.0" /\
    to_string (mkTabletInfo 10080 (-2147483648)) = ".10080.-2147483648".
Proof.
  intros t. split; [| split; [| repeat split]].
  - eexists. unfold to_string. cbn. reflexivity.
  - unfold to_string. rewrite !count_char_app, !decimal_no_dot. reflexivity.
Qed.

End TabletInfoString.

(** ** Start of the workers *)

Section Bootstrap.

Import Int OlapServer.

Lemma reserve_throws_int32 (n : Z) :
  int32_range n -> reserve_throws n = (n <? 0).
Proof.
  unfold int32_range, reserve_throws, to_size_t, vector_max_size.
  intros R.
  change ((2 ^ 63 - 1) / 8) with 1152921504606846975.
  destruct (Z.ltb_spec n 0) as [Hneg | Hpos].
  - assert (n mod 2 ^ 64 = n + 2 ^ 64) as ->
        by (symmetry; apply Z.mod_unique with (q := -1); lia).
    apply Z.ltb_lt. lia.
  - rewrite Z.mod_small by lia. apply Z.ltb_ge. lia.
Qed.

(** The loop stops by its own test: from [i] on it runs [bound - i]
    times, with any fuel that is enough. *)
Lemma emplace_loop_count (w : worker) (num_threads : Z) :
  forall (fuel : nat) (i : Z),
    0 <= i <= to_uint32 num_threads ->
    (Z.to_nat (to_uint32 num_threads - i) <= fuel)%nat ->
    emplace_loop fuel i num_threads w =
    repeat w (Z.to_nat (to_uint32 num_threads - i)).
Proof.
  pose proof (to_uint32_range num_threads) as RN.
  unfold uint32_range, two32 in RN.
  induction fuel as [| fuel IH]; intros i Hi Hf.
  - replace (Z.to_nat (to_uint32 num_threads - i)) with 0%nat by lia.
    reflexivity.
  - cbn [emplace_loop].
    destruct (Z.ltb_spec i (to_uint32 num_threads)) as [Hlt | Hge].
    + assert (to_uint32 (i + 1) = i + 1) as E
          by (apply to_uint32_id; unfold uint32_range, two32; lia).
      rewrite E, IH by lia.
      replace (Z.to_nat (to_uint32 num_threads - i))
        with (S (Z.to_nat (to_uint32 num_threads - (i + 1)))) by lia.
      reflexivity.
    + replace (Z.to_nat (to_uint32 num_threads - i)) with 0%nat by lia.
      reflexivity.
Qed.

Lemma emplace_loop_int32 (w : worker) (n : Z) (extra : nat) :
  0 <= n < 2 ^ 31 ->
  emplace_loop (Z.to_nat (to_uint32 n) + extra) 0 n w = repeat w (Z.to_nat n).
Proof.
  intros R.
  assert (to_uint32 n = n) as E
      by (apply to_uint32_id; unfold uint32_range, two32; lia).
  rewrite emplace_loop_count; rewrite ?E, ?Z.sub_0_r; try reflexivity; lia.
Qed.

Lemma count_threads_app (w : worker) (l l' : list worker) :
  count_threads w (l ++ l') = (count_threads w l + count_threads w l')%nat.
Proof. unfold count_threads. now rewrite filter_app, length_app. Qed.

Lemma count_threads_repeat (w v : worker) (n : nat) :
  count_threads w (repeat v n) = if worker_eqb w v then n else 0%nat.
Proof.
  unfold count_threads. induction n as [| n IH]; cbn.
  - now destruct (worker_eqb w v).
  - destruct (worker_eqb w v) eqn:E; cbn; now rewrite IH.
Qed.

(** X3.  With pool sizes [nb], [nc] that are not negative,
    [_start_bg_worker] returns [OLAP_SUCCESS] after it has started, in this
    order, the garbage sweeper, the disk-stat monitor, the unused-index
    cleaner, [nb] base-compaction threads, [nc] cumulative-compaction
    threads and the fd-cache cleaner: [nb + nc + 4] threads, exactly [nb]
    of them base-compaction threads whatever [nc] is, and each of the four
    other workers exactly once. *)
Theorem start_bg_worker_threads :
  forall pc : pool_config,
    let nb := base_compaction_num_threads pc in
    let nc := cumulative_compaction_num_threads pc in
    0 <= nb < 2 ^ 31 -> 0 <= nc < 2 ^ 31 ->
    _start_bg_worker pc =
      ([GarbageSweeper; Periodic DiskStatMonitor; Periodic UnusedIndex]
         ++ repeat (Periodic BaseCompaction) (Z.to_nat nb)
         ++ repeat (Periodic CumulativeCompaction) (Z.to_nat nc)
         ++ [Periodic FdCacheClean],
       Returned OLAP_SUCCESS) /\
    Z.of_nat (List.length (fst (_start_bg_worker pc))) = nb + nc + 4 /\
    Z.of_nat (count_threads (Periodic BaseCompaction)
                            (fst (_start_bg_worker pc))) = nb /\
    Z.of_nat (count_threads (Periodic CumulativeCompaction)
                            (fst (_start_bg_worker pc))) = nc /\
    (forall w : worker,
        w <> Periodic BaseCompaction -> w <> Periodic CumulativeCompaction ->
        count_threads w (fst (_start_bg_worker pc)) = 1%nat).
Proof.
  intros pc nb nc Hb Hc.
  assert (_start_bg_worker pc =
          ([GarbageSweeper; Periodic DiskStatMonitor; Periodic UnusedIndex]
             ++ repeat (Periodic BaseCompaction) (Z.to_nat nb)
             ++ repeat (Periodic CumulativeCompaction) (Z.to_nat nc)
             ++ [Periodic FdCacheClean],
           Returned OLAP_SUCCESS)) as E.
  { unfold _start_bg_worker. fold nb nc.
    rewrite !reserve_throws_int32 by (unfold int32_range; lia).
    destruct (Z.ltb_spec nb 0); [lia |].
    destruct (Z.ltb_spec nc 0); [lia |].
    pose proof (emplace_loop_int32 (Periodic BaseCompaction) nb 0 Hb) as Lb.
    pose proof (emplace_loop_int32 (Periodic CumulativeCompaction) nc 0 Hc)
      as Lc.
    rewrite Nat.add_0_r in Lb, Lc. rewrite Lb, Lc.
    now rewrite <- !app_assoc. }
  rewrite E. cbn [fst]. split; [reflexivity |].
  split; [| split; [| split]].
  - rewrite !length_app, !repeat_length. cbn [List.length]. lia.
  - rewrite !count_threads_app, !count_threads_repeat. cbn. lia.
  - rewrite !count_threads_app, !count_threads_repeat. cbn. lia.
  - intros w Hnb Hnc.
    rewrite !count_threads_app, !count_threads_repeat.
    destruct w as [| []]; cbn; try reflexivity; congruence.
Qed.

Lemma start_bg_worker_threads_witness :
  Z.of_nat (count_threads (Periodic BaseCompaction)
                          (fst (_start_bg_worker (mkPoolConfig 4 7)))) = 4.
Proof.
  apply (start_bg_worker_threads (mkPoolConfig 4 7)); cbn; lia.
Defined.

(** X4.  A negative pool size does not mean an empty pool.  With a
    negative [base_compaction_num_threads] the call ends in the
    [std::length_error] of [reserve] when only the garbage sweeper, the
    disk-stat monitor and the unused-index cleaner run; with a negative
    [cumulative_compaction_num_threads] it ends there after the base
    pool is started.  In both cases no status is returned and the fd-cache
    cleaner is never started. *)
Theorem start_bg_worker_negative_pool :
  forall pc : pool_config,
    let nb := base_compaction_num_threads pc in
    let nc := cumulative_compaction_num_threads pc in
    int32_range nb -> int32_range nc ->
    (nb < 0 ->
     _start_bg_worker pc =
       ([GarbageSweeper; Periodic DiskStatMonitor; Periodic UnusedIndex],
        LengthError)) /\
    (0 <= nb -> nc < 0 ->
     _start_bg_worker pc =
       ([GarbageSweeper; Periodic DiskStatMonitor; Periodic UnusedIndex]
          ++ repeat (Periodic BaseCompaction) (Z.to_nat nb),
        LengthError)) /\
    (nb < 0 \/ nc < 0 ->
     snd (_start_bg_worker pc) = LengthError /\
     count_threads (Periodic FdCacheClean) (fst (_start_bg_worker pc))
     = 0%nat).
Proof.
  intros pc nb nc Rb Rc.
  assert (nb < 0 ->
          _start_bg_worker pc =
          ([GarbageSweeper; Periodic DiskStatMonitor; Periodic UnusedIndex],
           LengthError)) as H1.
  { intros Hneg. unfold _start_bg_worker. fold nb.
    rewrite (reserve_throws_int32 nb Rb).
    destruct (Z.ltb_spec nb 0); [reflexivity | lia]. }
  assert (0 <= nb -> nc < 0 ->
          _start_bg_worker pc =
          ([GarbageSweeper; Periodic DiskStatMonitor; Periodic UnusedIndex]
             ++ repeat (Periodic BaseCompaction) (Z.to_nat nb),
           LengthError)) as H2.
  { intros Hb Hneg. unfold _start_bg_worker. fold nb nc.
    rewrite (reserve_throws_int32 nb Rb), (reserve_throws_int32 nc Rc).
    destruct (Z.ltb_spec nb 0); [lia |].
    destruct (Z.ltb_spec nc 0); [| lia].
    pose proof (emplace_loop_int32 (Periodic BaseCompaction) nb 0) as Lb.
    rewrite Nat.add_0_r in Lb. rewrite Lb; [reflexivity |].
    unfold int32_range in Rb. lia. }
  split; [exact H1 | split; [exact H2 |]].
  intros Hneg.
  destruct (Z.ltb_spec nb 0) as [Hb | Hb].
  - rewrite (H1 Hb). split; reflexivity.
  - rewrite (H2 Hb ltac:(lia)). cbn [fst snd]. split; [reflexivity |].
    rewrite count_threads_app, count_threads_repeat. reflexivity.
Qed.

Lemma start_bg_worker_negative_pool_witness :
  _start_bg_worker (mkPoolConfig (-1) 1) =
    ([GarbageSweeper; Periodic DiskStatMonitor; Periodic UnusedIndex],
     LengthError) /\
  _start_bg_worker (mkPoolConfig 2 (-1)) =
    ([GarbageSweeper; Periodic DiskStatMonitor; Periodic UnusedIndex]
       ++ repeat (Periodic BaseCompaction) (Z.to_nat 2),
     LengthError).
Proof.
  split.
  - destruct (start_bg_worker_negative_pool (mkPoolConfig (-1) 1))
      as (H & _ & _).
    + unfold int32_range. cbn. lia.
    + unfold int32_range. cbn. lia.
    + apply H. cbn. lia.
  - destruct (start_bg_worker_negative_pool (mkPoolConfig 2 (-1)))
      as (_ & H & _).
    + unfold int32_range. cbn. lia.
    + unfold int32_range. cbn. lia.
    + apply H; cbn; lia.
Defined.

End Bootstrap.

(** ** What the interval check lets through *)

Section IntervalCheck.

Import Int OlapServer.

Lemma worker_startup (w : periodic_worker) (cfg : config) (n : nat) :
  startup (worker_run w cfg n) =
  match w with CumulativeCompaction => [LogInfo] | _ => [] end
    ++ fst (checked_interval (configured_interval w cfg) (safe_default w)).
Proof.
  destruct w;
    cbn [worker_run configured_interval safe_default];
    unfold _fd_cache_clean_callback, _disk_stat_monitor_thread_callback,
      _unused_index_thread_callback, _base_compaction_thread_callback,
      _cumulative_compaction_thread_callback;
    match goal with
    | |- context [checked_interval ?c ?d] => destruct (checked_interval c d)
    end; reflexivity.
Qed.

Lemma checked_interval_warns (c d : Z) :
  int32_range c -> (In LogWarning (fst (checked_interval c d)) <-> c = 0).
Proof.
  unfold int32_range, checked_interval. intros R.
  destruct (Z.leb_spec (to_uint32 c) 0) as [Hz | Hp]; cbn [fst].
  - split; [intros _ | intros _; left; reflexivity].
    destruct (Z_lt_le_dec c 0) as [Hneg | Hpos].
    + rewrite to_uint32_neg in Hz by (unfold two32; lia).
      unfold two32 in Hz. lia.
    + rewrite to_uint32_id in Hz by (unfold uint32_range, two32; lia). lia.
  - split; [intros [] | intros ->]. cbn in Hp. lia.
Qed.

(** X5.  For each of the five workers and any configured value of the
    signed 32-bit range, the warning of the interval check is logged at
    start-up exactly when the configured value is 0: a negative value
    passes silently.  Whatever the value, a worker that calls [sleep] never
    calls it with 0: the argument is between 1 and 2^32 - 1. *)
Theorem interval_warning_only_for_zero :
  forall (w : periodic_worker) (cfg : config) (n : nat),
    int32_range (configured_interval w cfg) ->
    (In LogWarning (startup (worker_run w cfg n)) <->
     configured_interval w cfg = 0) /\
    (forall (it : list event) (s : Z),
        In it (iterations (worker_run w cfg n)) -> In (Sleep s) it ->
        1 <= s < two32 /\
        s = effective_interval (configured_interval w cfg) (safe_default w)).
Proof.
  intros w cfg n R. split.
  - rewrite worker_startup, in_app_iff.
    rewrite <- (checked_interval_warns _ (safe_default w) R).
    split; [intros [H | H]; [| exact H] | intros H; right; exact H].
    destruct w; cbn in H; try contradiction.
    destruct H as [H | []]. discriminate H.
  - intros it s Hit Hs. apply worker_iteration_body in Hit. subst it.
    pose proof (effective_interval_range (configured_interval w cfg)
                  (safe_default w)) as B.
    assert (0 < safe_default w < two32) as D
        by (destruct w; cbn; unfold two32; lia).
    specialize (B D).
    assert (s = effective_interval (configured_interval w cfg)
                                   (safe_default w)) as ->.
    { destruct w; cbn [worker_body In] in Hs;
        repeat (destruct Hs as [Hs | Hs]; try discriminate Hs;
                try (injection Hs as Hs; now subst));
        contradiction. }
    split; [lia | reflexivity].
Qed.

Lemma interval_warning_only_for_zero_witness :
  In LogWarning
     (startup (worker_run DiskStatMonitor
                 (mkConfig 3600 60 86400 200 0 30 10) 1)) /\
  1 <= 5 < two32.
Proof.
  split.
  - apply (proj1 (interval_warning_only_for_zero DiskStatMonitor
                    (mkConfig 3600 60 86400 200 0 30 10) 1
                    ltac:(unfold int32_range; cbn; lia))).
    reflexivity.
  - apply (proj2 (interval_warning_only_for_zero DiskStatMonitor
                    sample_config 1
                    ltac:(unfold int32_range; cbn; lia))
                 [Call start_disk_stat_monitor; Sleep 5] 5).
    + left; reflexivity.
    + right; left; reflexivity.
Defined.

Lemma mul_million_zero (c : Z) :
  (c * 1000000) mod 2 ^ 32 = 0 <-> (2 ^ 26 | c).
Proof.
  rewrite Z.mod_divide by lia.
  replace (c * 1000000) with (15625 * c * 2 ^ 6) by lia.
  change (2 ^ 32) with (2 ^ 26 * 2 ^ 6).
  rewrite Z.mul_divide_cancel_r by lia.
  split.
  - intros H. apply Z.gauss with (m := 15625); [exact H | reflexivity].
  - intros H. now apply Z.divide_mul_r.
Qed.

(** X6.  The compaction workers can end up without any sleep.  For a
    configured check interval [c] of the signed 32-bit range, every
    iteration of the base- or the cumulative-compaction worker calls
    [usleep(0)] exactly when [c] is a multiple of 2^26 = 67108864 other
    than 0: the product with 1000000 is then a multiple of 2^32. *)
Theorem compaction_usleep_zero :
  forall (w : periodic_worker) (cfg : config) (n : nat) (it : list event),
    w = BaseCompaction \/ w = CumulativeCompaction ->
    int32_range (configured_interval w cfg) ->
    In it (iterations (worker_run w cfg n)) ->
    (In (Usleep 0) it <->
     configured_interval w cfg <> 0 /\ (2 ^ 26 | configured_interval w cfg)).
Proof.
  intros w cfg n it Hw R Hit.
  apply worker_iteration_body in Hit. subst it.
  set (c := configured_interval w cfg) in *.
  assert (safe_default w = 1) as -> by (destruct Hw; subst w; reflexivity).
  assert (In (Usleep 0) (worker_body w (effective_interval c 1)) <->
          mul_uint32 (effective_interval c 1) 1000000 = 0) as ->.
  { destruct Hw; subst w; cbn [worker_body In]; split.
    all: try (intros [H | [H | [H | []]]]; try discriminate H;
              now injection H).
    all: intros ->; right; right; left; reflexivity. }
  unfold int32_range in R.
  destruct (Z.eq_dec c 0) as [-> | Hnz].
  - rewrite effective_interval_zero.
    split; [intros H; vm_compute in H; discriminate | intros [H _]; lia].
  - assert (effective_interval c 1 = to_uint32 c) as ->.
    { destruct (Z_lt_le_dec c 0).
      - rewrite effective_interval_negative, to_uint32_neg
          by (unfold two32; lia). reflexivity.
      - rewrite effective_interval_positive, to_uint32_id
          by (unfold uint32_range, two32; lia). reflexivity. }
    unfold mul_uint32, to_uint32, two32.
    rewrite Z.mul_mod_idemp_l by lia.
    rewrite mul_million_zero. tauto.
Qed.

Lemma compaction_usleep_zero_witness :
  In (Usleep 0)
     [Call apply_system_cgroup; Call perform_base_compaction; Usleep 0].
Proof.
  apply (proj2 (compaction_usleep_zero BaseCompaction
                  (mkConfig 3600 67108864 86400 200 5 30 10) 1
                  [Call apply_system_cgroup; Call perform_base_compaction;
                   Usleep 0]
                  (or_introl eq_refl)
                  ltac:(unfold int32_range; cbn; lia)
                  ltac:(left; reflexivity))).
  split.
  - cbn. lia.
  - exists 1. reflexivity.
Defined.

End IntervalCheck.

(** ** Runs of the garbage sweeper *)

Section SweeperRuns.

Import Int OlapServer.

Lemma sweeper_run (cfg : config) (sweeps : list (R -> OLAPStatus * R)) :
  let v := sweep_validate (max_garbage_sweep_interval cfg)
                          (min_garbage_sweep_interval cfg) in
  startup (_garbage_sweeper_thread_callback cfg sweeps) = fst v /\
  iterations (_garbage_sweeper_thread_callback cfg sweeps) =
    sweeper_loop (fst (snd v)) (snd (snd v)) 1 sweeps.
Proof.
  unfold _garbage_sweeper_thread_callback.
  destruct (sweep_validate _ _) as [log [max' min']]. split; reflexivity.
Qed.

Lemma validated_bounds (cmax cmin : Z) :
  let v := sweep_validate cmax cmin in
  1 <= snd (snd v) /\ snd (snd v) <= fst (snd v) /\ fst (snd v) < two32.
Proof.
  pose proof (sweep_validate_invariant cmax cmin) as H.
  destruct (sweep_validate cmax cmin) as [log [max' min']]. exact H.
Qed.

(** X7.  Whatever the two configured values are, negative ones included,
    the bounds that leave the validation satisfy
    [1 <= min' <= max' < 2^32]; validating them again changes nothing and
    logs nothing; and when the first validation logs nothing it has
    kept the two converted values. *)
Theorem sweep_validate_establishes_invariant :
  forall cmax cmin : Z,
    let v := sweep_validate cmax cmin in
    let max' := fst (snd v) in
    let min' := snd (snd v) in
    (1 <= min' /\ min' <= max' /\ max' < two32) /\
    sweep_validate max' min' = ([], (max', min')) /\
    (fst v = [] \/ fst v = [LogWarning; LogInfo] /\ min' = 1) /\
    (fst v = [] -> max' = to_uint32 cmax /\ min' = to_uint32 cmin).
Proof.
  intros cmax cmin v max' min'.
  pose proof (validated_bounds cmax cmin) as B. fold v max' min' in B.
  split; [exact B |]. split.
  - destruct B as (B1 & B2 & B3).
    apply (sweep_validate_nonnegative max' min'); lia.
  - subst max' min' v. unfold sweep_validate.
    destruct (negb _); cbn [fst snd].
    + split; [right; split; reflexivity | discriminate].
    + split; [left; reflexivity | intros _; split; reflexivity].
Qed.

Lemma sweep_validate_establishes_invariant_witness :
  fst (snd (sweep_validate (-1) (-5))) = to_uint32 (-1) /\
  snd (snd (sweep_validate (-1) (-5))) = to_uint32 (-5).
Proof.
  apply (proj2 (proj2 (proj2
           (sweep_validate_establishes_invariant (-1) (-5))))).
  reflexivity.
Defined.

(** X8.  On configured values that are not negative the validation does
    what its warning says: a pair with [max >= min > 0] is kept and
    nothing is logged; any other pair is replaced by [min' = 1],
    [max' = max(max, 1)], and the worker logs a warning and the new values
    before its loop starts. *)
Theorem sweep_validate_nonnegative_config :
  forall (cfg : config) (sweeps : list (R -> OLAPStatus * R)),
    let cmax := max_garbage_sweep_interval cfg in
    let cmin := min_garbage_sweep_interval cfg in
    0 <= cmax < 2 ^ 31 -> 0 <= cmin < 2 ^ 31 ->
    (cmax >= cmin /\ cmin > 0 ->
     sweep_validate cmax cmin = ([], (cmax, cmin)) /\
     startup (_garbage_sweeper_thread_callback cfg sweeps) = []) /\
    (cmin = 0 \/ cmax < cmin ->
     sweep_validate cmax cmin = ([LogWarning; LogInfo], (Z.max cmax 1, 1)) /\
     startup (_garbage_sweeper_thread_callback cfg sweeps) =
       [LogWarning; LogInfo]).
Proof.
  intros cfg sweeps cmax cmin Hx Hn.
  destruct (sweeper_run cfg sweeps) as [Hs _]. fold cmax cmin in Hs.
  destruct (sweep_validate_nonnegative cmax cmin) as [Hbad Hgood];
    try (unfold two32; lia).
  split; intros H.
  - rewrite Hs, Hgood by exact H. split; reflexivity.
  - rewrite Hs, Hbad by lia. split; reflexivity.
Qed.

Lemma sweep_validate_nonnegative_config_witness :
  sweep_validate 10 0 = ([LogWarning; LogInfo], (Z.max 10 1, 1)) /\
  sweep_validate 86400 200 = ([], (86400, 200)).
Proof.
  split.
  - apply (proj2 (sweep_validate_nonnegative_config
                    (mkConfig 3600 60 10 0 5 30 10) []
                    ltac:(cbn; lia) ltac:(cbn; lia))).
    left. reflexivity.
  - apply (proj1 (sweep_validate_nonnegative_config sample_config []
                    ltac:(cbn; lia) ltac:(cbn; lia))).
    cbn. lia.
Defined.

Lemma ratio_nonneg (p : R) : (0 <= ratio p)%R.
Proof. apply clamp_ratio_nonneg. Qed.

Lemma ratio_zero_from_90 (p : R) : (90 <= p)%R -> ratio p = 0%R.
Proof.
  intros Hp. apply Rle_antisym; [| apply ratio_nonneg].
  apply Rle_trans with (ratio 90); [now apply ratio_antitone |].
  unfold ratio. rewrite clamp_ratio_negative; [lra |].
  pose proof raw_ratio_90. lra.
Qed.

Lemma double_to_uint32_0 : double_to_uint32 0 = 0.
Proof.
  unfold double_to_uint32.
  destruct (Rle_dec 0 0) as [_ | N]; [apply Int_part_0 | exfalso; lra].
Qed.

Lemma sweep_interval_at_zero_ratio (max_interval min_interval : Z) (usage : R) :
  ratio (usage * 100) = 0%R -> 0 <= min_interval ->
  sweep_interval max_interval min_interval usage = min_interval.
Proof.
  intros Hr Hm. rewrite sweep_interval_max, Hr, Rmult_0_r, double_to_uint32_0.
  lia.
Qed.

(** X9.  From 90 percent disk usage on, the sweeper runs at its fastest:
    for any bounds with [min_interval >= 0] and any usage fraction of 0.9
    or more, fractions above 1 included, the interval of the iteration is
    [min_interval]. *)
Theorem sweep_interval_high_usage :
  forall (max_interval min_interval : Z) (usage : R),
    0 <= min_interval -> (0.9 <= usage)%R ->
    ratio (usage * 100) = 0%R /\
    sweep_interval max_interval min_interval usage = min_interval.
Proof.
  intros max_interval min_interval usage Hm Hu.
  assert (ratio (usage * 100) = 0%R) as Hr by (apply ratio_zero_from_90; lra).
  split; [exact Hr |]. now apply sweep_interval_at_zero_ratio.
Qed.

Lemma sweep_interval_high_usage_witness :
  ratio (0.95 * 100) = 0%R /\ sweep_interval 86400 200 0.95 = 200.
Proof.
  apply (sweep_interval_high_usage 86400 200 0.95); [lia | lra].
Defined.

(** X10.  Whatever the configuration, the first thing the sweeper does in
    its loop is to sleep for the validated [min_interval]: the state is
    seeded with full usage.  The first sweep follows that sleep. *)
Theorem sweeper_first_sleep_is_min :
  forall (cfg : config) (sweep : R -> OLAPStatus * R)
         (rest : list (R -> OLAPStatus * R)),
    let min' := snd (snd (sweep_validate (max_garbage_sweep_interval cfg)
                                         (min_garbage_sweep_interval cfg))) in
    1 <= min' /\
    exists (tail : list event) (its : list (list event)),
      iterations (_garbage_sweeper_thread_callback cfg (sweep :: rest)) =
      (Sleep min' :: Call start_trash_sweep :: tail) :: its.
Proof.
  intros cfg sweep rest min'.
  destruct (validated_bounds (max_garbage_sweep_interval cfg)
                             (min_garbage_sweep_interval cfg))
    as (B1 & B2 & B3).
  fold min' in B1, B2. split; [exact B1 |].
  destruct (sweeper_run cfg (sweep :: rest)) as [_ ->]. fold min'.
  destruct (sweeper_loop_first_sleep
              (fst (snd (sweep_validate (max_garbage_sweep_interval cfg)
                                        (min_garbage_sweep_interval cfg))))
              min' 1 sweep rest) as (tail & its & ->).
  rewrite sweep_interval_at_zero_ratio.
  - do 2 eexists. reflexivity.
  - apply ratio_zero_from_90. lra.
  - lia.
Qed.

Lemma sweeper_loop_in_bounds (max_interval min_interval : Z) :
  0 < min_interval <= max_interval ->
  forall (sweeps : list (R -> OLAPStatus * R)) (usage : R),
    (0 <= usage <= 1)%R ->
    Forall (fun sweep => forall u : R, (0 <= snd (sweep u) <= 1)%R) sweeps ->
    Forall (fun it =>
              exists (s : Z) (tail : list event),
                it = Sleep s :: Call start_trash_sweep :: tail /\
                min_interval <= s <= max_interval)
           (sweeper_loop max_interval min_interval usage sweeps).
Proof.
  intros Hm. induction sweeps as [| sweep rest IH]; intros usage Hu Hs.
  - constructor.
  - inversion Hs as [| ? ? Hsweep Hrest]; subst.
    cbn [sweeper_loop]. specialize (Hsweep (usage * 100)%R).
    destruct (sweep (usage * 100)%R) as [res usage']. cbn [snd] in Hsweep.
    constructor.
    + do 2 eexists. split; [reflexivity |].
      now apply sweep_interval_bounds.
    + now apply IH.
Qed.

(** X11.  Whatever the configuration, as long as every call of
    [start_trash_sweep] leaves a usage fraction in [0, 1], every iteration
    of the sweeper starts with a sleep between the validated
    [min_interval] and [max_interval], both included, and calls
    [start_trash_sweep] right after it. *)
Theorem sweeper_sleeps_within_validated_bounds :
  forall (cfg : config) (sweeps : list (R -> OLAPStatus * R)),
    let v := sweep_validate (max_garbage_sweep_interval cfg)
                            (min_garbage_sweep_interval cfg) in
    Forall (fun sweep => forall u : R, (0 <= snd (sweep u) <= 1)%R) sweeps ->
    Forall (fun it =>
              exists (s : Z) (tail : list event),
                it = Sleep s :: Call start_trash_sweep :: tail /\
                1 <= snd (snd v) <= s /\ s <= fst (snd v) < two32)
           (iterations (_garbage_sweeper_thread_callback cfg sweeps)).
Proof.
  intros cfg sweeps v Hs.
  destruct (sweeper_run cfg sweeps) as [_ ->]. fold v.
  destruct (validated_bounds (max_garbage_sweep_interval cfg)
                             (min_garbage_sweep_interval cfg))
    as (B1 & B2 & B3).
  fold v in B1, B2, B3.
  eapply Forall_impl;
    [| apply (sweeper_loop_in_bounds (fst (snd v)) (snd (snd v)));
       [lia | lra | exact Hs]].
  intros it (s & tail & -> & Hb). exists s, tail.
  split; [reflexivity | lia].
Qed.

Lemma sweeper_sleeps_within_validated_bounds_witness :
  Forall (fun it =>
            exists (s : Z) (tail : list event),
              it = Sleep s :: Call start_trash_sweep :: tail /\
              1 <= 200 <= s /\ s <= 86400 < two32)
         (iterations
            (_garbage_sweeper_thread_callback sample_config
               [fun _ => (OLAP_SUCCESS, 0.5%R); fun _ => (OLAP_ERR 1, 0.7%R)])).
Proof.
  apply (sweeper_sleeps_within_validated_bounds sample_config
           [fun _ => (OLAP_SUCCESS, 0.5%R); fun _ => (OLAP_ERR 1, 0.7%R)]).
  repeat constructor; cbn; lra.
Defined.


Lemma sweeper_loop_sleeps_ignore_status (max_interval min_interval : Z) :
  forall (sweeps sweeps' : list (R -> OLAPStatus * R)) (usage : R),
    Forall2 (fun f g => forall u : R, snd (f u) = snd (g u)) sweeps sweeps' ->
    map sleep_seconds (sweeper_loop max_interval min_interval usage sweeps) =
    map sleep_seconds (sweeper_loop max_interval min_interval usage sweeps').
Proof.
  intros sweeps sweeps' usage H. revert usage.
  induction H as [| f g rest rest' Hfg Hrest IH]; intros usage.
  - reflexivity.
  - cbn [sweeper_loop]. specialize (Hfg (usage * 100)%R).
    destruct (f (usage * 100)%R) as [rf uf], (g (usage * 100)%R) as [rg ug].
    cbn [snd] in Hfg. subst ug. cbn [map]. rewrite IH. f_equal.
    destruct rf, rg; reflexivity.
Qed.






Lemma Int_part_monotone (x y : R) : (x <= y)%R -> Int_part x <= Int_part y.
Proof.
  intros H.
  destruct (base_Int_part x) as [Hx _], (base_Int_part y) as [_ Hy].
  assert (Int_part x < Int_part y + 1) by (apply lt_IZR; rewrite plus_IZR; lra).
  lia.
Qed.

(** X13.  The fuller the disk, the sooner the next sweep: the interval
    of the iteration does not grow when the usage grows, over all usage
    values.  ([max_interval] is kept below ten elevenths of 2^32, so that
    the product with the ratio fits the [uint32_t] it is stored in.) *)
Theorem sweep_interval_antitone :
  forall (max_interval min_interval : Z) (usage usage' : R),
    0 <= max_interval -> 11 * max_interval < 10 * two32 ->
    (usage <= usage')%R ->
    sweep_interval max_interval min_interval usage' <=
    sweep_interval max_interval min_interval usage.
Proof.
  intros max_interval min_interval usage usage' Hm _ Hu.
  rewrite !sweep_interval_max.
  assert (ratio (usage' * 100) <= ratio (usage * 100))%R as Hr
      by (apply ratio_antitone; lra).
  pose proof (ratio_nonneg (usage' * 100)) as H0.
  assert (0 <= IZR max_interval)%R as HM by (apply IZR_le; lia).
  unfold double_to_uint32.
  destruct (Rle_dec 0 (IZR max_interval * ratio (usage' * 100))) as [_ | N];
    [| exfalso; apply N; nra].
  destruct (Rle_dec 0 (IZR max_interval * ratio (usage * 100))) as [_ | N];
    [| exfalso; apply N; nra].
  apply Z.max_le_compat_r, Int_part_monotone. nra.
Qed.

Lemma sweep_interval_antitone_witness :
  sweep_interval 86400 200 0.8 <= sweep_interval 86400 200 0.2.
Proof.
  apply (sweep_interval_antitone 86400 200 0.2 0.8);
    [lia | unfold two32; lia | lra].
Defined.

Lemma raw_ratio_below_11 (p : R) : (raw_ratio p < 1.1)%R.
Proof.
  rewrite raw_ratio_PI.
  destruct (atan_bound (p / 5 - 14)) as [Hl _].
  pose proof PI_lower. apply Rdiv_lt_bound; lra.
Qed.

Lemma raw_ratio_far_left (p : R) : (p <= -1000)%R -> (1.004 < raw_ratio p)%R.
Proof.
  intros Hp. apply Rlt_le_trans with (raw_ratio (-1000)).
  - rewrite raw_ratio_left by lra.
    replace (14 - -1000 / 5)%R with 214%R by lra.
    pose proof (atan_lt_id (/ 214) ltac:(lra)) as Ha.
    pose proof PI_lower as HPI.
    apply Rdiv_gt_bound; lra.
  - now apply raw_ratio_antitone.
Qed.

(** X14.  What is left of the bounds when the usage is not a fraction
    of [0, 1].  For validated bounds with [max_interval] below ten
    elevenths of 2^32, and every usage value, the ratio is below 1.1 and
    the product with [max_interval] fits the [uint32_t] it is stored in;
    the interval is never below [min_interval] and never above eleven
    tenths of [max_interval].  It can exceed [max_interval]: within these
    bounds it does so for every [max_interval] of 250 or more when the
    usage left behind is -10 or less. *)
Theorem sweep_interval_any_usage :
  forall (max_interval min_interval : Z) (usage : R),
    0 < min_interval <= max_interval ->
    11 * max_interval < 10 * two32 ->
    (0 <= IZR max_interval * ratio (usage * 100) < IZR two32)%R /\
    (min_interval <= sweep_interval max_interval min_interval usage /\
     10 * sweep_interval max_interval min_interval usage
       <= 11 * max_interval) /\
    (250 <= max_interval -> (usage <= -10)%R ->
     max_interval < sweep_interval max_interval min_interval usage).
Proof.
  intros max_interval min_interval usage Hm Hfit.
  rewrite sweep_interval_max.
  assert (0 < IZR max_interval)%R as HM by (apply IZR_lt; lia).
  pose proof (ratio_nonneg (usage * 100)) as H0.
  assert (ratio (usage * 100) < 1.1)%R as H1.
  { unfold ratio, clamp_ratio. pose proof (raw_ratio_below_11 (usage * 100)).
    destruct (Rlt_dec 0 (raw_ratio (usage * 100))); lra. }
  assert (11 * IZR max_interval < 10 * IZR two32)%R as Hfit'
      by (rewrite <- !mult_IZR; apply IZR_lt; exact Hfit).
  split; [split; nra |].
  unfold double_to_uint32.
  destruct (Rle_dec 0 (IZR max_interval * ratio (usage * 100))) as [_ | N];
    [| exfalso; apply N; nra].
  destruct (base_Int_part (IZR max_interval * ratio (usage * 100)))
    as [Hle Hgt].
  split; [split; [lia |] |].
  - assert (10 * Int_part (IZR max_interval * ratio (usage * 100))
            <= 11 * max_interval)
      by (apply le_IZR; rewrite !mult_IZR; nra).
    lia.
  - intros Hbig Hu.
    assert (250 <= IZR max_interval)%R as HM' by (apply IZR_le; lia).
    assert (1.004 < ratio (usage * 100))%R as Hr.
    { unfold ratio. pose proof (raw_ratio_far_left (usage * 100) ltac:(lra)).
      rewrite clamp_ratio_positive; lra. }
    assert (max_interval < Int_part (IZR max_interval * ratio (usage * 100)))
      by (apply lt_IZR; nra).
    lia.
Qed.

Lemma sweep_interval_any_usage_witness :
  1000 < sweep_interval 1000 1 (-10).
Proof.
  destruct (sweep_interval_any_usage 1000 1 (-10)) as (_ & _ & H).
  - lia.
  - unfold two32. lia.
  - apply H; [lia | lra].
Defined.

Lemma raw_ratio_60 : (0.82 < raw_ratio 60)%R.
Proof.
  rewrite raw_ratio_left by lra.
  replace (14 - 60 / 5)%R with 2%R by lra.
  pose proof (atan_lt_id (/ 2) ltac:(lra)) as Ha.
  pose proof PI_lower as HPI.
  apply Rdiv_gt_bound; lra.
Qed.

Lemma raw_ratio_75 : (raw_ratio 75 < 0.2)%R.
Proof.
  rewrite raw_ratio_PI.
  replace (75 / 5 - 14)%R with 1%R by lra.
  rewrite atan_1.
  pose proof PI_lower as HPl. pose proof PI_upper as HPu.
  apply Rdiv_lt_bound; lra.
Qed.

(** X15.  The profile the comments of the loop describe, for every
    [max_interval] a [uint32_t] holds.  For a usage fraction from 0 to
    0.6 the ratio stays above 0.82 and the interval above 82 percent of
    [max_interval], less one second; from a usage of 0.75 on the ratio is
    below 0.2 and the interval is [min_interval] or at most a fifth of
    [max_interval].  In both cases the product with [max_interval] fits
    the [uint32_t] it is stored in. *)
Theorem sweep_interval_profile :
  forall (max_interval min_interval : Z) (usage : R),
    0 <= max_interval < two32 ->
    ((0 <= usage <= 0.6)%R ->
     (0.82 < ratio (usage * 100) <= 1)%R /\
     (0 <= IZR max_interval * ratio (usage * 100) < IZR two32)%R /\
     82 * max_interval - 100
       < 100 * sweep_interval max_interval min_interval usage) /\
    ((0.75 <= usage)%R ->
     (0 <= ratio (usage * 100) < 0.2)%R /\
     (0 <= IZR max_interval * ratio (usage * 100) < IZR two32)%R /\
     (sweep_interval max_interval min_interval usage = min_interval \/
      5 * sweep_interval max_interval min_interval usage <= max_interval)).
Proof.
  intros max_interval min_interval usage Hm.
  assert (0 <= IZR max_interval)%R as HM by (apply IZR_le; lia).
  assert (IZR max_interval < IZR two32)%R as HM' by (apply IZR_lt; lia).
  pose proof (ratio_nonneg (usage * 100)) as H0.
  rewrite sweep_interval_max. unfold double_to_uint32.
  destruct (Rle_dec 0 (IZR max_interval * ratio (usage * 100))) as [_ | N];
    [| exfalso; apply N; nra].
  destruct (base_Int_part (IZR max_interval * ratio (usage * 100)))
    as [Hle Hgt].
  split; intros Hu.
  - assert (0.82 < ratio (usage * 100))%R as Hr.
    { apply Rlt_le_trans with (ratio 60); [| apply ratio_antitone; lra].
      unfold ratio. pose proof raw_ratio_60.
      rewrite clamp_ratio_positive; lra. }
    destruct (ratio_unit_interval (usage * 100) ltac:(lra)) as [_ Hr1].
    split; [split; [exact Hr | exact Hr1] |].
    split; [split; nra |].
    assert (82 * max_interval - 100
            < 100 * Int_part (IZR max_interval * ratio (usage * 100)))
      by (apply lt_IZR; rewrite minus_IZR, !mult_IZR; nra).
    lia.
  - assert (ratio (usage * 100) < 0.2)%R as Hr.
    { apply Rle_lt_trans with (ratio 75); [apply ratio_antitone; lra |].
      unfold ratio, clamp_ratio. pose proof raw_ratio_75.
      destruct (Rlt_dec 0 (raw_ratio 75)); lra. }
    split; [split; [exact H0 | exact Hr] |].
    split; [split; nra |].
    assert (5 * Int_part (IZR max_interval * ratio (usage * 100))
            <= max_interval)
      by (apply le_IZR; rewrite !mult_IZR; nra).
    lia.
Qed.

Lemma sweep_interval_profile_witness :
  82 * 4294967295 - 100 < 100 * sweep_interval 4294967295 1 0.5 /\
  (sweep_interval 86400 200 0.8 = 200 \/
   5 * sweep_interval 86400 200 0.8 <= 86400).
Proof.
  split.
  - apply (proj1 (sweep_interval_profile 4294967295 1 0.5
                    ltac:(unfold two32; lia))).
    lra.
  - apply (proj2 (sweep_interval_profile 86400 200 0.8
                    ltac:(unfold two32; lia))).
    lra.
Defined.

End SweeperRuns.
